(** * ts-gif-parser: a shallow embedding of [GifParser] and its specification

    The development follows [gif-parser/src/lib/gif-parser.ts] (the current
    revision of the class, with [parseImages]) and [types.ts].  JavaScript
    values that the parser manipulates are modelled directly:

    - a [Buffer] is the list of its bytes (each a [Z] in [0, 255]);
    - an indexed read [buffer[i]] is an [option Z], [None] standing for
      [undefined];
    - a call that may raise returns a [result], which also records the case
      where a [while] loop has not finished within the given number of
      iterations. *)

From Stdlib Require Import ZArith List Ascii Bool Lia PeanoNat.
From Stdlib Require String.
From Stdlib Require Import Floats.PrimFloat Numbers.Cyclic.Int63.Uint63.
Import ListNotations.
Import String.StringSyntax.

Delimit Scope string_scope with string.
Bind Scope string_scope with String.string.

Abbreviation string := String.string.
Notation "x +++ y" := (String.append x%string y%string)
  (right associativity, at level 60).

Set Warnings "-inexact-float".
Open Scope Z_scope.

(** ** Outcomes of a call *)

Inductive JSError : Type :=
| RangeError                (* ERR_OUT_OF_RANGE / ERR_BUFFER_OUT_OF_BOUNDS *)
| TypeError                 (* property access on [undefined] *)
| Error (message : string). (* [new Error(message)] *)

Inductive result (A : Type) : Type :=
| Ok (a : A)
| Throw (e : JSError)
| OutOfFuel.

Arguments Ok {A} a.
Arguments Throw {A} e.
Arguments OutOfFuel {A}.

Definition bind {A B : Type} (r : result A) (k : A -> result B) : result B :=
  match r with
  | Ok a => k a
  | Throw e => Throw e
  | OutOfFuel => OutOfFuel
  end.

Declare Scope js_scope.
Delimit Scope js_scope with js.
Notation "x <- r ;; k" := (bind r (fun x => k))
  (at level 61, r at next level, right associativity) : js_scope.
Notation "' p <- r ;; k" := (bind r (fun x => let 'p := x in k))
  (at level 61, p pattern, r at next level, right associativity) : js_scope.
Open Scope js_scope.

Definition returns {A : Type} (r : result A) : Prop := exists a, r = Ok a.

(** ** Buffers *)

Module Buffer.

Definition t : Type := list Z.

(** Every element of a [Buffer] is an unsigned byte. *)
Definition wf (b : t) : Prop := Forall (fun x => 0 <= x < 256) b.

(** [buffer[i]]: [undefined] out of range. *)
Definition index (b : t) (i : nat) : option Z := nth_error b i.

(** [buffer.subarray(start, end)], for [0 <= start] and [0 <= end]: both
    ends are clamped to the length, and an end before the start gives the
    empty view. *)
Definition subarray (b : t) (start end_ : nat) : t :=
  firstn (end_ - start) (skipn start b).

(** [buffer.readUInt16LE(offset)] as Node implements it:
    [first = this[offset]; last = this[offset + 1];
     if (first === undefined || last === undefined) boundsError(...);
     return first + last * 2 ** 8]. *)
Definition readUInt16LE (b : t) (offset : nat) : result Z :=
  match index b offset, index b (offset + 1) with
  | Some first, Some last => Ok (first + last * 2 ^ 8)
  | _, _ => Throw RangeError
  end.

(** [Buffer.from(array)]: each entry goes through ToUint8, so [undefined]
    (NaN) becomes 0 and a number is taken modulo 256. *)
Definition from (a : list (option Z)) : t :=
  map (fun v => match v with Some x => x mod 256 | None => 0 end) a.

End Buffer.

(** ** Operators *)

(** [v & mask] for a byte read [v] and a literal mask below 2^31: ToInt32
    sends [undefined] to 0 and leaves the low bits of a number as they are. *)
Definition bitand (v : option Z) (mask : Z) : Z :=
  match v with
  | Some x => Z.land x mask
  | None => 0
  end.

(** [Boolean(n)] for an integer [n]. *)
Definition Boolean (n : Z) : bool := negb (n =? 0).

(** [v !== n] for a byte read [v] and a number literal [n]. *)
Definition strict_neq (v : option Z) (n : Z) : bool :=
  match v with
  | Some x => negb (x =? n)
  | None => true
  end.

(** ** [Number.prototype.toString(16)] on integers *)

Definition hex_digit (d : Z) : ascii :=
  match d with
  | 0 => "0" | 1 => "1" | 2 => "2" | 3 => "3" | 4 => "4" | 5 => "5"
  | 6 => "6" | 7 => "7" | 8 => "8" | 9 => "9" | 10 => "a" | 11 => "b"
  | 12 => "c" | 13 => "d" | 14 => "e" | _ => "f"
  end%char.

Fixpoint hex_digits (fuel : nat) (n : Z) (acc : string) : string :=
  match fuel with
  | O => acc
  | S fuel' =>
      let acc' := String.String (hex_digit (n mod 16)) acc in
      if n / 16 =? 0 then acc' else hex_digits fuel' (n / 16) acc'
  end.

(** The digits of [n] in base 16, lowercase, most significant first, with no
    leading zero and no padding; a minus sign in front of a negative
    integer. *)
Definition toString16 (n : Z) : string :=
  if n <? 0
  then "-" +++ hex_digits (S (Z.to_nat (Z.log2 (- n)))) (- n) String.EmptyString
  else hex_digits (S (Z.to_nat (Z.log2 n))) n String.EmptyString.


(** ** The record types of [types.ts] *)

Module RgbColour.
Record t : Type := mk { r : Z; g : Z; b : Z }.
End RgbColour.

Module LabColor.
Record t : Type := mk { l : float; a : float; b : float }.
End LabColor.

Record HexColour : Type := { value : string }.

Record Color : Type := {
  rgbValues : RgbColour.t;
  labValues : LabColor.t;
  hexValue : HexColour;
}.

Record HeaderBlock : Type := {
  signature : string;
  version : string;
}.

(** [backgroundColorIndex] and [pixelAspectRatio] are plain indexed reads, so
    at run time they hold [undefined] when the buffer ends before them. *)
Record LogicalScreenDescriptor : Type := {
  width : Z;
  height : Z;
  globalColorTableFlag : bool;
  colorResolution : Z;
  colorResolutionValue : Z;
  sortFlag : bool;
  backgroundColorIndex : option Z;
  pixelAspectRatio : option Z;
}.

Record GraphicsControlExtension : Type := {
  disposalMethod : Z;
  userInputFlag : bool;
  transparentColorFlag : bool;
  delayTime : Z;
  transparentColorIndex : option Z;
}.

Record ImageDescriptor : Type := {
  imageLeftPosition : Z;
  imageTopPosition : Z;
  imageWidth : Z;
  imageHeight : Z;
  localColorTableFlag : bool;
  interlaceFlag : bool;
  localColorTableSize : Z;
}.

Record Image : Type := {
  imageDescriptor : ImageDescriptor;
  localColorTable : option (list Color);
  imageData : Buffer.t;
}.

Record GifTableReaderOptions : Type := { filePath : string }.

(** ** The decoders that read the buffer only *)

(** [parseLogicalScreenDescriptor], lines 460-483. *)
Definition parseLogicalScreenDescriptor (buffer : Buffer.t)
  : result LogicalScreenDescriptor :=
  let descriptorBuffer := Buffer.subarray buffer 6 13 in
  width <- Buffer.readUInt16LE descriptorBuffer 0 ;;
  height <- Buffer.readUInt16LE descriptorBuffer 2 ;;
  let packed := Buffer.index descriptorBuffer 4 in
  let globalColorTableFlag := Boolean (bitand packed 128) in
  let colorResolution := Z.shiftr (bitand packed 112) 4 in
  let colorResolutionValue := 2 ^ (colorResolution + 1) in
  let sortFlag := Boolean (bitand packed 8) in
  let backgroundColorIndex := Buffer.index descriptorBuffer 5 in
  let pixelAspectRatio := Buffer.index descriptorBuffer 6 in
  Ok {| width := width;
        height := height;
        globalColorTableFlag := globalColorTableFlag;
        colorResolution := colorResolution;
        colorResolutionValue := colorResolutionValue;
        sortFlag := sortFlag;
        backgroundColorIndex := backgroundColorIndex;
        pixelAspectRatio := pixelAspectRatio |}.

(** The earlier revision of the same method (lines 78-101 of the file), which
    the one above replaces: [colorResolutionValue = 1 << colorResolution]. *)
Definition parseLogicalScreenDescriptor_rev1 (buffer : Buffer.t)
  : result LogicalScreenDescriptor :=
  let descriptorBuffer := Buffer.subarray buffer 6 13 in
  width <- Buffer.readUInt16LE descriptorBuffer 0 ;;
  height <- Buffer.readUInt16LE descriptorBuffer 2 ;;
  let packed := Buffer.index descriptorBuffer 4 in
  let colorResolution := Z.shiftr (bitand packed 112) 4 in
  Ok {| width := width;
        height := height;
        globalColorTableFlag := Boolean (bitand packed 128);
        colorResolution := colorResolution;
        colorResolutionValue := Z.shiftl 1 colorResolution;
        sortFlag := Boolean (bitand packed 8);
        backgroundColorIndex := Buffer.index descriptorBuffer 5;
        pixelAspectRatio := Buffer.index descriptorBuffer 6 |}.

(** [parseGraphicsControlExtension], lines 437-452. *)
Definition parseGraphicsControlExtension (buffer : Buffer.t)
  : result GraphicsControlExtension :=
  let disposalMethod := Z.shiftr (bitand (Buffer.index buffer 3) 28) 2 in
  let userInputFlag := Boolean (bitand (Buffer.index buffer 3) 2) in
  let transparentColorFlag := Boolean (bitand (Buffer.index buffer 3) 1) in
  delayTime <- Buffer.readUInt16LE buffer 4 ;;
  let transparentColorIndex := Buffer.index buffer 6 in
  Ok {| disposalMethod := disposalMethod;
        userInputFlag := userInputFlag;
        transparentColorFlag := transparentColorFlag;
        delayTime := delayTime;
        transparentColorIndex := transparentColorIndex |}.

(** [parseImageDescriptor], lines 329-343; the four 16-bit reads come first
    in the object literal and any of them may raise. *)
Definition parseImageDescriptor (buffer : Buffer.t) : result ImageDescriptor :=
  let packed := Buffer.index buffer 9 in
  imageLeftPosition <- Buffer.readUInt16LE buffer 0 ;;
  imageTopPosition <- Buffer.readUInt16LE buffer 2 ;;
  imageWidth <- Buffer.readUInt16LE buffer 4 ;;
  imageHeight <- Buffer.readUInt16LE buffer 6 ;;
  Ok {| imageLeftPosition := imageLeftPosition;
        imageTopPosition := imageTopPosition;
        imageWidth := imageWidth;
        imageHeight := imageHeight;
        localColorTableFlag := Boolean (bitand packed 128);
        interlaceFlag := Boolean (bitand packed 64);
        localColorTableSize := bitand packed 7 |}.

(** The [for] loop of [parseImageData]: [n] times, push [buffer[offset]] and
    advance. *)
Fixpoint pushBlock (buffer : Buffer.t) (n : nat) (offset : nat)
  (imageData : list (option Z)) : nat * list (option Z) :=
  match n with
  | O => (offset, imageData)
  | S n' =>
      pushBlock buffer n' (S offset) (imageData ++ [Buffer.index buffer offset])
  end.

(** How often [for (let i = 0; i < blockSize; i++)] runs: never when
    [blockSize] is [undefined], since [i < undefined] is false. *)
Definition iterations (blockSize : option Z) : nat :=
  match blockSize with
  | Some n => Z.to_nat n
  | None => O
  end.

(** The [while (buffer[offset] !== 0x00)] loop of [parseImageData]; one unit
    of fuel per iteration. *)
Fixpoint parseImageData_loop (fuel : nat) (buffer : Buffer.t) (offset : nat)
  (imageData : list (option Z)) : result Buffer.t :=
  if strict_neq (Buffer.index buffer offset) 0
  then
    match fuel with
    | O => OutOfFuel
    | S fuel' =>
        let blockSize := Buffer.index buffer offset in
        let offset := S offset in
        let '(offset, imageData) :=
          pushBlock buffer (iterations blockSize) offset imageData in
        parseImageData_loop fuel' buffer offset imageData
    end
  else Ok (Buffer.from imageData).

(** [parseImageData], lines 352-370: the offset it is given is advanced by
    one ("Skip the LZW minimum code size byte") before the first block
    length is read. *)
Definition parseImageData (fuel : nat) (buffer : Buffer.t) (offset : nat)
  : result Buffer.t :=
  let offset := S offset in
  parseImageData_loop fuel buffer offset [].

(** ** The class [GifParser] *)

(** The fields of an instance; each starts as [undefined]. *)
Record GifParser : Type := {
  binValue : option Buffer.t;
  headerBlock : option HeaderBlock;
  logicalScreenDescriptor : option LogicalScreenDescriptor;
  hasGlobalColorTable : option bool;
  globalColorTable : option (list Color);
  graphicsControlExtension : option GraphicsControlExtension;
  images : option (list Image);
}.

Definition init : GifParser :=
  {| binValue := None; headerBlock := None; logicalScreenDescriptor := None;
     hasGlobalColorTable := None; globalColorTable := None;
     graphicsControlExtension := None; images := None |}.

Definition set_binValue (this : GifParser) (v : Buffer.t) : GifParser :=
  {| binValue := Some v; headerBlock := headerBlock this;
     logicalScreenDescriptor := logicalScreenDescriptor this;
     hasGlobalColorTable := hasGlobalColorTable this;
     globalColorTable := globalColorTable this;
     graphicsControlExtension := graphicsControlExtension this;
     images := images this |}.

Definition set_headerBlock (this : GifParser) (v : HeaderBlock) : GifParser :=
  {| binValue := binValue this; headerBlock := Some v;
     logicalScreenDescriptor := logicalScreenDescriptor this;
     hasGlobalColorTable := hasGlobalColorTable this;
     globalColorTable := globalColorTable this;
     graphicsControlExtension := graphicsControlExtension this;
     images := images this |}.

Definition set_logicalScreenDescriptor (this : GifParser)
  (v : LogicalScreenDescriptor) : GifParser :=
  {| binValue := binValue this; headerBlock := headerBlock this;
     logicalScreenDescriptor := Some v;
     hasGlobalColorTable := hasGlobalColorTable this;
     globalColorTable := globalColorTable this;
     graphicsControlExtension := graphicsControlExtension this;
     images := images this |}.

Definition set_hasGlobalColorTable (this : GifParser) (v : bool) : GifParser :=
  {| binValue := binValue this; headerBlock := headerBlock this;
     logicalScreenDescriptor := logicalScreenDescriptor this;
     hasGlobalColorTable := Some v;
     globalColorTable := globalColorTable this;
     graphicsControlExtension := graphicsControlExtension this;
     images := images this |}.

Definition set_globalColorTable (this : GifParser) (v : list Color) : GifParser :=
  {| binValue := binValue this; headerBlock := headerBlock this;
     logicalScreenDescriptor := logicalScreenDescriptor this;
     hasGlobalColorTable := hasGlobalColorTable this;
     globalColorTable := Some v;
     graphicsControlExtension := graphicsControlExtension this;
     images := images this |}.

Definition set_graphicsControlExtension (this : GifParser)
  (v : GraphicsControlExtension) : GifParser :=
  {| binValue := binValue this; headerBlock := headerBlock this;
     logicalScreenDescriptor := logicalScreenDescriptor this;
     hasGlobalColorTable := hasGlobalColorTable this;
     globalColorTable := globalColorTable this;
     graphicsControlExtension := Some v;
     images := images this |}.

Definition set_images (this : GifParser) (v : list Image) : GifParser :=
  {| binValue := binValue this; headerBlock := headerBlock this;
     logicalScreenDescriptor := logicalScreenDescriptor this;
     hasGlobalColorTable := hasGlobalColorTable this;
     globalColorTable := globalColorTable this;
     graphicsControlExtension := graphicsControlExtension this;
     images := Some v |}.

(** [this.field ?? (() => { throw new Error(message) })()]. *)
Definition orThrow {A : Type} (field : option A) (message : string) : result A :=
  match field with
  | Some v => Ok v
  | None => Throw (Error message)
  end.

Definition getHeaderBlock (this : GifParser) : result HeaderBlock :=
  orThrow (headerBlock this) "The headerBlock is undefined"%string.

Definition getBinValue (this : GifParser) : result Buffer.t :=
  orThrow (binValue this) "The binValue is undefined".

Definition getLogicalScreenDescriptor (this : GifParser)
  : result LogicalScreenDescriptor :=
  orThrow (logicalScreenDescriptor this) "The logicalScreenDescriptor is undefined".

Definition getGlobalColorTable (this : GifParser) : result (list Color) :=
  orThrow (globalColorTable this) "The globalColorTable is undefined".

Definition getGraphicsControlExtension (this : GifParser)
  : result GraphicsControlExtension :=
  orThrow (graphicsControlExtension this) "The graphicsControlExtension is undefined".

Definition getImages (this : GifParser) : result (list Image) :=
  orThrow (images this) "The images is undefined".

Section Parser.

(** What the class takes from the JavaScript runtime and from Node:
    - [x ** y] on numbers, which ECMAScript leaves implementation-approximated;
    - [Buffer.prototype.toString()], the UTF-8 decoding of a buffer;
    - [path.resolve] and [fs.readFileSync], the latter raising when the
      file cannot be read. *)
Variable exponentiate : float -> float -> float.
Variable Buffer_toString : Buffer.t -> string.
Variable path_resolve : string -> string.
Variable readFileSync : string -> result Buffer.t.

Local Notation "x ** y" := (exponentiate x y)
  (at level 30, right associativity) : float_scope.

Definition number (n : Z) : float := PrimFloat.of_uint63 (Uint63.of_Z n).

(** [convertRGBToLab], lines 526-557. *)
Definition convertRGBToLab (r g b : Z) : LabColor.t :=
  (let sr := number r / 255 in
   let sg := number g / 255 in
   let sb := number b / 255 in
   let rLinear := if sr <=? 0.04045 then sr / 12.92 else ((sr + 0.055) / 1.055) ** 2.4 in
   let gLinear := if sg <=? 0.04045 then sg / 12.92 else ((sg + 0.055) / 1.055) ** 2.4 in
   let bLinear := if sb <=? 0.04045 then sb / 12.92 else ((sb + 0.055) / 1.055) ** 2.4 in
   let x := rLinear * 0.4124 + gLinear * 0.3576 + bLinear * 0.1805 in
   let y := rLinear * 0.2126 + gLinear * 0.7152 + bLinear * 0.0722 in
   let z := rLinear * 0.0193 + gLinear * 0.1192 + bLinear * 0.9505 in
   let xn := 0.95047 in
   let yn := 1.0 in
   let zn := 1.08883 in
   let xN := x / xn in
   let yN := y / yn in
   let zN := z / zn in
   let f := fun t : float =>
     if (6 / 29) ** 3 <? t
     then t ** (1 / 3)
     else (1 / 3) * ((29 / 6) ** 2) * t + 4 / 29 in
   let lValue := 116 * f yN - 16 in
   let aValue := 500 * (f xN - f yN) in
   let bValue := 200 * (f yN - f zN) in
   LabColor.mk lValue aValue bValue)%float.

(** The [for (let i = 0; i < buffer.length; i += 3)] loop of
    [parseColorTable].  [green.toString(16)] and [blue.toString(16)] are
    method calls on an indexed read: on [undefined] they raise a
    TypeError, before the colour is pushed. *)
Fixpoint parseColorTable_loop (fuel : nat) (buffer : Buffer.t) (i : nat)
  (colors : list Color) : result (list Color) :=
  if (i <? length buffer)%nat
  then
    match fuel with
    | O => OutOfFuel
    | S fuel' =>
        let red := Buffer.index buffer i in
        let green := Buffer.index buffer (i + 1) in
        let blue := Buffer.index buffer (i + 2) in
        match red, green, blue with
        | Some red, Some green, Some blue =>
            let color :=
              {| rgbValues := RgbColour.mk red green blue;
                 hexValue :=
                   {| value := "#" +++ toString16 red +++ toString16 green
                                   +++ toString16 blue |};
                 labValues := convertRGBToLab red green blue |} in
            parseColorTable_loop fuel' buffer (i + 3) (colors ++ [color])
        | _, _, _ => Throw TypeError
        end
    end
  else Ok colors.

(** [parseColorTable], lines 408-429.  The index grows by three on every
    round, so [buffer.length] rounds are always enough. *)
Definition parseColorTable (buffer : Buffer.t) : result (list Color) :=
  parseColorTable_loop (length buffer) buffer 0 [].

(** [parseGlobalColorTable], lines 378-400; [!x] holds of [undefined] and
    of [false]. *)
Definition parseGlobalColorTable (this : GifParser) (buffer : Buffer.t)
  : result (list Color) :=
  match hasGlobalColorTable this with
  | None | Some false => Ok []
  | Some true =>
      match logicalScreenDescriptor this with
      | None =>
          Throw (Error "The logicalScreenDescriptor is undefined. This should not happen.")
      | Some lsd =>
          let colorTableSize := 2 ^ (colorResolution lsd + 1) in
          let colorTableBuffer :=
            Buffer.subarray buffer 13 (13 + Z.to_nat (3 * colorTableSize)) in
          colors <- parseColorTable colorTableBuffer ;;
          Ok colors
      end
  end.

(** [parseHeaderBlock], lines 491-499: two clamped views and their text;
    nothing in it can raise. *)
Definition parseHeaderBlock (buffer : Buffer.t) : HeaderBlock :=
  let signature := Buffer_toString (Buffer.subarray buffer 0 3) in
  let version := Buffer_toString (Buffer.subarray buffer 3 6) in
  {| signature := signature; version := version |}.

(** The [while (offset < buffer.length)] loop of [parseImages]; one unit of
    fuel per iteration, and the fuel at hand for the sub-block loop of
    [parseImageData]. *)
Fixpoint parseImages_loop (fuel : nat) (buffer : Buffer.t) (offset : nat)
  (images : list Image) : result (list Image) :=
  if (offset <? length buffer)%nat
  then
    match fuel with
    | O => OutOfFuel
    | S fuel' =>
        if strict_neq (Buffer.index buffer offset) 44
        then parseImages_loop fuel' buffer (S offset) images
        else
          let imageDescriptorBuffer :=
            Buffer.subarray buffer (offset + 1) (offset + 11) in
          imageDescriptor <- parseImageDescriptor imageDescriptorBuffer ;;
          let offset := (offset + 11)%nat in
          '(localColorTable, offset) <-
            (if localColorTableFlag imageDescriptor
             then
               let localColorTableSize :=
                 2 ^ (Z.land (localColorTableSize imageDescriptor) 7 + 1) in
               let localColorTableBuffer :=
                 Buffer.subarray buffer offset
                   (offset + Z.to_nat (3 * localColorTableSize)) in
               localColorTable <- parseColorTable localColorTableBuffer ;;
               Ok (Some localColorTable,
                   (offset + Z.to_nat (3 * localColorTableSize))%nat)
             else Ok (None, offset)) ;;
          (* Skip the LZW minimum code size byte *)
          let offset := S offset in
          imageData <- parseImageData fuel buffer offset ;;
          let image :=
            {| imageDescriptor := imageDescriptor;
               localColorTable := localColorTable;
               imageData := imageData |} in
          (* Skip to the next image descriptor *)
          parseImages_loop fuel' buffer (offset + (length imageData + 1))
            (images ++ [image])
    end
  else Ok images.

(** [parseImages], lines 269-321. *)
Definition parseImages (fuel : nat) (buffer : Buffer.t) : result (list Image) :=
  let offset := 7%nat in (* Skip the logical screen descriptor *)
  parseImages_loop fuel buffer offset [].

(** [loadGif], lines 507-516: the [catch] logs the error and raises it
    again. *)
Definition loadGif (gifPath : string) : result Buffer.t :=
  let absolutePath := path_resolve gifPath in
  readFileSync absolutePath.

(** The constructor, lines 164-177: the assignments in order, the whole
    construction failing with the first call that raises. *)
Definition new (fuel : nat) (options : GifTableReaderOptions) : result GifParser :=
  let this := init in
  buffer <- loadGif (filePath options) ;;
  let this := set_binValue this buffer in
  let this := set_headerBlock this (parseHeaderBlock buffer) in
  lsd <- parseLogicalScreenDescriptor buffer ;;
  let this := set_logicalScreenDescriptor this lsd in
  let this := set_hasGlobalColorTable this (globalColorTableFlag lsd) in
  colors <- parseGlobalColorTable this buffer ;;
  let this := set_globalColorTable this colors in
  gce <- parseGraphicsControlExtension buffer ;;
  let this := set_graphicsControlExtension this gce in
  imgs <- parseImages fuel buffer ;;
  let this := set_images this imgs in
  Ok this.

End Parser.

(** ** Vocabulary of the statements *)

(** The three channels of a colour, in the order they are read. *)
Definition channels (c : Color) : list Z :=
  [RgbColour.r (rgbValues c); RgbColour.g (rgbValues c); RgbColour.b (rgbValues c)].

(** The hex string of a colour is ["#"] and the unpadded base-16 text of
    each channel. *)
Definition hex_of_channels (c : Color) : Prop :=
  value (hexValue c) =
    "#" +++ toString16 (RgbColour.r (rgbValues c))
        +++ toString16 (RgbColour.g (rgbValues c))
        +++ toString16 (RgbColour.b (rgbValues c)).

(** The colour that [parseColorTable] builds from one triple. *)
Definition color_of (exponentiate : float -> float -> float)
  (red green blue : Z) : Color :=
  {| rgbValues := RgbColour.mk red green blue;
     hexValue :=
       {| value := "#" +++ toString16 red +++ toString16 green
                       +++ toString16 blue |};
     labValues := convertRGBToLab exponentiate red green blue |}.

(** ** Data for closed examples *)

(** The examples fix one runtime: text is decoded bytewise (UTF-8 decoding
    of ASCII bytes), paths are taken as they are, and [**] ignores its
    exponent, the examples reading byte-level fields only and never a
    CIELAB value. *)
Module Sample.

Definition toString (b : Buffer.t) : string :=
  String.string_of_list_ascii (map (fun x => ascii_of_nat (Z.to_nat x)) b).

Definition exponentiate (x y : float) : float := x.

Definition resolve (p : string) : string := p.

(** A file system that holds one file. *)
Definition readFileSync (name : string) (content : Buffer.t) (p : string)
  : result Buffer.t :=
  if String.eqb p name then Ok content else Throw (Error "ENOENT").

End Sample.

(** "GIF89a" *)
Definition gif_header : Buffer.t := [71; 73; 70; 56; 57; 97].

(** A data sub-block sequence: each block behind its length byte, then the
    zero-length block. *)
Fixpoint subBlocks (blocks : list (list Z)) : list Z :=
  match blocks with
  | [] => [0]
  | block :: rest => Z.of_nat (length block) :: block ++ subBlocks rest
  end.

(** Header, a 1x1 screen without a global table, then an image in the
    layout of the scanner (the separator [0x2C], ten descriptor bytes, one
    LZW minimum code size byte), the sub-blocks [1,2,3] and [4,5], and the
    trailer. *)
Definition two_block_gif : Buffer.t :=
  gif_header ++ [1; 0; 1; 0; 0; 0; 0]
    ++ [44; 0; 0; 0; 0; 1; 0; 1; 0; 0; 0] ++ [2]
    ++ subBlocks [[1; 2; 3]; [4; 5]] ++ [59].

(** The same image in the layout of the GIF format: the separator, nine
    descriptor bytes (four 16-bit fields and the packed byte), the LZW
    minimum code size byte, the sub-blocks and the trailer. *)
Definition two_block_gif89a : Buffer.t :=
  gif_header ++ [1; 0; 1; 0; 0; 0; 0]
    ++ [44; 0; 0; 0; 0; 1; 0; 1; 0; 0] ++ [2]
    ++ subBlocks [[1; 2; 3]; [4; 5]] ++ [59].

(** Header, a screen descriptor whose packed byte [0x81] sets the global
    table flag, colour resolution 0 (bits 6-4) and table size exponent 1
    (bits 2-0), the four colours that exponent announces, and the trailer. *)
Definition four_colour_gif : Buffer.t :=
  gif_header ++ [1; 0; 1; 0; 129; 0; 0]
    ++ [1; 2; 3; 4; 5; 6; 7; 8; 9; 10; 11; 12] ++ [59].

(** Header, a screen descriptor for a canvas of height 44 ([0x2C] at
    offset 8), and nine zero bytes: no image at all. *)
Definition height_44_gif : Buffer.t :=
  gif_header ++ [1; 0; 44; 0; 0; 0; 0] ++ [0; 0; 0; 0; 0; 0; 0; 0; 0].

(** * Properties *)

(** ** Bit fields of a packed byte *)

Section BitFields.

(** Masking with [ones w << k] and shifting right by [k] selects the
    [w]-bit field that starts at bit [k]. *)
Lemma field_of_mask (p k w mask : Z) :
  0 <= k -> 0 <= w -> Z.shiftr mask k = Z.ones w ->
  Z.shiftr (Z.land p mask) k = (p / 2 ^ k) mod 2 ^ w.
Proof.
  intros Hk Hw Hmask.
  rewrite Z.shiftr_land, Hmask, Z.land_ones by assumption.
  now rewrite Z.shiftr_div_pow2.
Qed.

Lemma field_range (p k w : Z) : 0 <= w -> 0 <= (p / 2 ^ k) mod 2 ^ w < 2 ^ w.
Proof.
  intros Hw. apply Z.mod_pos_bound, Z.pow_pos_nonneg; lia.
Qed.

(** Masking with a single bit and converting to a boolean reads that
    bit. *)
Lemma Boolean_bit (p k : Z) :
  0 <= k -> Boolean (Z.land p (2 ^ k)) = Z.testbit p k.
Proof.
  intros Hk. unfold Boolean.
  destruct (Z.testbit p k) eqn:Hbit.
  - assert (Hland : Z.land p (2 ^ k) = 2 ^ k).
    { apply Z.bits_inj'; intros n Hn.
      rewrite Z.land_spec, Z.pow2_bits_eqb by assumption.
      destruct (Z.eqb_spec k n) as [->|_];
        [now rewrite Hbit | apply andb_false_r]. }
    rewrite Hland.
    assert (0 < 2 ^ k) by (apply Z.pow_pos_nonneg; lia).
    destruct (Z.eqb_spec (2 ^ k) 0); [lia | reflexivity].
  - assert (Hland : Z.land p (2 ^ k) = 0).
    { apply Z.bits_inj'; intros n Hn.
      rewrite Z.land_spec, Z.pow2_bits_eqb, Z.bits_0 by assumption.
      destruct (Z.eqb_spec k n) as [->|_];
        [now rewrite Hbit | apply andb_false_r]. }
    now rewrite Hland.
Qed.

End BitFields.

(** ** Reads inside and outside a buffer *)

Section BufferFacts.

Lemma index_Some (b : Buffer.t) (i : nat) :
  (i < length b)%nat -> exists x, Buffer.index b i = Some x.
Proof.
  intros Hi. unfold Buffer.index.
  destruct (nth_error b i) eqn:E; [eauto|].
  apply nth_error_None in E. lia.
Qed.

Lemma index_None (b : Buffer.t) (i : nat) :
  (length b <= i)%nat -> Buffer.index b i = None.
Proof. intros Hi. now apply nth_error_None. Qed.

Lemma subarray_length (b : Buffer.t) (s e : nat) :
  length (Buffer.subarray b s e) = Nat.min (e - s) (length b - s).
Proof.
  unfold Buffer.subarray. now rewrite length_firstn, length_skipn.
Qed.

(** A read through a view is the read of the buffer at the shifted
    position, as long as it stays inside the view. *)
Lemma index_subarray (b : Buffer.t) (s e i : nat) :
  (i < e - s)%nat ->
  Buffer.index (Buffer.subarray b s e) i = Buffer.index b (s + i).
Proof.
  intros Hi. unfold Buffer.index, Buffer.subarray.
  rewrite nth_error_firstn.
  destruct (Nat.ltb_spec i (e - s)); [|lia].
  apply nth_error_skipn.
Qed.

Lemma index_subarray_out (b : Buffer.t) (s e i : nat) :
  (e - s <= i)%nat -> Buffer.index (Buffer.subarray b s e) i = None.
Proof.
  intros Hi. apply index_None. rewrite subarray_length. lia.
Qed.

Lemma readUInt16LE_in (b : Buffer.t) (o : nat) (x y : Z) :
  Buffer.index b o = Some x -> Buffer.index b (o + 1) = Some y ->
  Buffer.readUInt16LE b o = Ok (x + 256 * y).
Proof.
  intros Hx Hy. unfold Buffer.readUInt16LE. rewrite Hx, Hy.
  f_equal. change (2 ^ 8) with 256. lia.
Qed.

Lemma readUInt16LE_out (b : Buffer.t) (o : nat) :
  (length b <= o + 1)%nat -> Buffer.readUInt16LE b o = Throw RangeError.
Proof.
  intros Ho. unfold Buffer.readUInt16LE.
  rewrite (index_None b (o + 1)) by lia.
  now destruct (Buffer.index b o).
Qed.

End BufferFacts.

(** ** The logical screen descriptor *)

Section ScreenDescriptor.

Lemma descriptor_view (buffer : Buffer.t) (i : nat) :
  (i < 7)%nat ->
  Buffer.index (Buffer.subarray buffer 6 13) i = Buffer.index buffer (6 + i).
Proof. intros Hi. apply index_subarray. simpl. lia. Qed.

(** With the two 16-bit fields inside the buffer the decoder returns, and
    every other field is an indexed read or a mask of one. *)
Lemma parseLogicalScreenDescriptor_returns (buffer : Buffer.t) :
  (10 <= length buffer)%nat ->
  exists w0 w1 h0 h1,
    Buffer.index buffer 6 = Some w0 /\ Buffer.index buffer 7 = Some w1 /\
    Buffer.index buffer 8 = Some h0 /\ Buffer.index buffer 9 = Some h1 /\
    parseLogicalScreenDescriptor buffer =
      Ok {| width := w0 + 256 * w1;
            height := h0 + 256 * h1;
            globalColorTableFlag := Boolean (bitand (Buffer.index buffer 10) 128);
            colorResolution := Z.shiftr (bitand (Buffer.index buffer 10) 112) 4;
            colorResolutionValue :=
              2 ^ (Z.shiftr (bitand (Buffer.index buffer 10) 112) 4 + 1);
            sortFlag := Boolean (bitand (Buffer.index buffer 10) 8);
            backgroundColorIndex := Buffer.index buffer 11;
            pixelAspectRatio := Buffer.index buffer 12 |}.
Proof.
  intros Hlen.
  destruct (index_Some buffer 6) as [w0 Hw0]; [lia|].
  destruct (index_Some buffer 7) as [w1 Hw1]; [lia|].
  destruct (index_Some buffer 8) as [h0 Hh0]; [lia|].
  destruct (index_Some buffer 9) as [h1 Hh1]; [lia|].
  exists w0, w1, h0, h1. repeat (split; [assumption|]).
  unfold parseLogicalScreenDescriptor.
  rewrite (readUInt16LE_in _ 0 w0 w1)
    by (rewrite descriptor_view by lia; assumption).
  rewrite (readUInt16LE_in _ 2 h0 h1)
    by (rewrite descriptor_view by lia; assumption).
  cbn [bind].
  now rewrite !descriptor_view by lia.
Qed.

Lemma parseLogicalScreenDescriptor_raises (buffer : Buffer.t) :
  (length buffer < 10)%nat ->
  parseLogicalScreenDescriptor buffer = Throw RangeError.
Proof.
  intros Hlen. unfold parseLogicalScreenDescriptor.
  destruct (Nat.ltb_spec (length buffer) 8) as [Hshort|Hwidth].
  - rewrite (readUInt16LE_out _ 0); [reflexivity|].
    rewrite subarray_length. lia.
  - destruct (index_Some buffer 6) as [w0 Hw0]; [lia|].
    destruct (index_Some buffer 7) as [w1 Hw1]; [lia|].
    rewrite (readUInt16LE_in _ 0 w0 w1)
      by (rewrite descriptor_view by lia; assumption).
    rewrite (readUInt16LE_out _ 2); [reflexivity|].
    rewrite subarray_length. lia.
Qed.

End ScreenDescriptor.

(** C5.  On a buffer of at least 13 bytes the decoded logical screen
    descriptor has [colorResolution] equal to bits 6-4 of the packed byte
    (offset 10), a value from 0 to 7, and
    [colorResolutionValue = 2 ^ (colorResolution + 1)], which is one of
    2, 4, 8, 16, 32, 64, 128, 256. *)
Theorem colorResolutionValue_power_of_two (buffer : Buffer.t) :
  (13 <= length buffer)%nat ->
  exists lsd packed,
    parseLogicalScreenDescriptor buffer = Ok lsd /\
    Buffer.index buffer 10 = Some packed /\
    colorResolution lsd = (packed / 2 ^ 4) mod 2 ^ 3 /\
    0 <= colorResolution lsd <= 7 /\
    colorResolutionValue lsd = 2 ^ (colorResolution lsd + 1) /\
    In (colorResolutionValue lsd) [2; 4; 8; 16; 32; 64; 128; 256].
Proof.
  intros Hlen.
  destruct (parseLogicalScreenDescriptor_returns buffer)
    as (w0 & w1 & h0 & h1 & _ & _ & _ & _ & Hparse); [lia|].
  destruct (index_Some buffer 10) as [packed Hpacked]; [lia|].
  rewrite Hpacked in Hparse. cbn [bitand] in Hparse.
  rewrite (field_of_mask packed 4 3) in Hparse by (lia || reflexivity).
  pose proof (field_range packed 4 3 ltac:(lia)) as Hrange.
  eexists. exists packed.
  split; [exact Hparse|]. split; [exact Hpacked|].
  cbn [colorResolution colorResolutionValue].
  set (c := (packed / 2 ^ 4) mod 2 ^ 3) in *.
  change (2 ^ 3) with 8 in Hrange.
  split; [reflexivity|]. split; [lia|]. split; [reflexivity|].
  assert (Hc : c = 0 \/ c = 1 \/ c = 2 \/ c = 3 \/ c = 4 \/ c = 5 \/ c = 6 \/ c = 7)
    by lia.
  clearbody c.
  repeat (destruct Hc as [-> | Hc]; [cbn; tauto|]).
  subst c. cbn. tauto.
Qed.

Lemma colorResolutionValue_power_of_two_witness :
  exists lsd packed,
    parseLogicalScreenDescriptor [71; 73; 70; 56; 57; 97; 10; 0; 10; 0; 145; 0; 0]
      = Ok lsd /\
    Buffer.index [71; 73; 70; 56; 57; 97; 10; 0; 10; 0; 145; 0; 0] 10 = Some packed /\
    colorResolution lsd = (packed / 2 ^ 4) mod 2 ^ 3 /\
    0 <= colorResolution lsd <= 7 /\
    colorResolutionValue lsd = 2 ^ (colorResolution lsd + 1) /\
    In (colorResolutionValue lsd) [2; 4; 8; 16; 32; 64; 128; 256].
Proof.
  apply (colorResolutionValue_power_of_two
           [71; 73; 70; 56; 57; 97; 10; 0; 10; 0; 145; 0; 0]).
  simpl. lia.
Defined.

(** The earlier revision shifted [1] by the exponent itself, one power of
    two short of the current one. *)
Example colorResolutionValue_rev1 :
  exists lsd,
    parseLogicalScreenDescriptor_rev1
      [71; 73; 70; 56; 57; 97; 10; 0; 10; 0; 145; 0; 0] = Ok lsd /\
    colorResolution lsd = 1 /\ colorResolutionValue lsd = 2.
Proof. eexists. repeat split. Qed.

(** C4 (as the code has it).  Header decoding cannot fail: on any buffer,
    also one shorter than 6 bytes, it returns the text of the bytes present
    in [0,3) and in [3,6).  Decoding the logical screen descriptor raises a
    RangeError exactly on buffers shorter than 10 bytes (the two 16-bit
    reads); from 10 bytes on it returns a record, whose indexed reads past
    the end are [undefined] and whose flags come from a zero packed byte
    when that byte is missing. *)
Theorem short_buffer_decoding (Buffer_toString : Buffer.t -> string)
  (buffer : Buffer.t) :
  parseHeaderBlock Buffer_toString buffer =
    {| signature := Buffer_toString (firstn 3 buffer);
       version := Buffer_toString (firstn 3 (skipn 3 buffer)) |} /\
  ((length buffer < 10)%nat ->
   parseLogicalScreenDescriptor buffer = Throw RangeError) /\
  ((10 <= length buffer)%nat ->
   exists lsd,
     parseLogicalScreenDescriptor buffer = Ok lsd /\
     backgroundColorIndex lsd = Buffer.index buffer 11 /\
     pixelAspectRatio lsd = Buffer.index buffer 12 /\
     ((length buffer < 13)%nat -> pixelAspectRatio lsd = None) /\
     ((length buffer = 10)%nat ->
      globalColorTableFlag lsd = false /\ colorResolution lsd = 0 /\
      colorResolutionValue lsd = 2 /\ sortFlag lsd = false /\
      backgroundColorIndex lsd = None)).
Proof.
  split; [reflexivity|].
  split; [apply parseLogicalScreenDescriptor_raises|].
  intros Hlen.
  destruct (parseLogicalScreenDescriptor_returns buffer Hlen)
    as (w0 & w1 & h0 & h1 & _ & _ & _ & _ & Hparse).
  eexists. split; [exact Hparse|].
  cbn [backgroundColorIndex pixelAspectRatio globalColorTableFlag
       colorResolution colorResolutionValue sortFlag].
  split; [reflexivity|]. split; [reflexivity|].
  split; [intros Hshort; apply index_None; lia|].
  intros Hten.
  rewrite (index_None buffer 10), (index_None buffer 11) by lia.
  repeat split.
Qed.

(** A buffer of ten bytes, three short of the descriptor region, is decoded
    into a record instead of failing, and so is the header of a buffer of
    four bytes. *)
Lemma truncated_buffer_returns :
  parseLogicalScreenDescriptor [71; 73; 70; 56; 57; 97; 1; 0; 1; 0] =
    Ok {| width := 1; height := 1; globalColorTableFlag := false;
          colorResolution := 0; colorResolutionValue := 2; sortFlag := false;
          backgroundColorIndex := None; pixelAspectRatio := None |} /\
  parseHeaderBlock Sample.toString [71; 73; 70; 56] =
    {| signature := "GIF"; version := "8" |}.
Proof. split; reflexivity. Qed.

(** ** The graphics control extension *)

(** C8.  On a buffer of at least 7 bytes the decoder returns a record with
    [disposalMethod] bits 4-2 of the byte at offset 3, [userInputFlag] its
    bit 1, [transparentColorFlag] its bit 0, [delayTime] the little-endian
    16-bit value of the bytes at offsets 4 and 5, and
    [transparentColorIndex] the byte at offset 6. *)
Theorem graphicsControlExtension_fields (buffer : Buffer.t) :
  (7 <= length buffer)%nat ->
  exists gce b3 b4 b5 b6,
    Buffer.index buffer 3 = Some b3 /\ Buffer.index buffer 4 = Some b4 /\
    Buffer.index buffer 5 = Some b5 /\ Buffer.index buffer 6 = Some b6 /\
    parseGraphicsControlExtension buffer = Ok gce /\
    disposalMethod gce = (b3 / 2 ^ 2) mod 2 ^ 3 /\
    userInputFlag gce = Z.testbit b3 1 /\
    transparentColorFlag gce = Z.testbit b3 0 /\
    delayTime gce = b4 + 256 * b5 /\
    transparentColorIndex gce = Some b6.
Proof.
  intros Hlen.
  destruct (index_Some buffer 3) as [b3 H3]; [lia|].
  destruct (index_Some buffer 4) as [b4 H4]; [lia|].
  destruct (index_Some buffer 5) as [b5 H5]; [lia|].
  destruct (index_Some buffer 6) as [b6 H6]; [lia|].
  eexists. exists b3, b4, b5, b6.
  repeat (split; [assumption|]).
  unfold parseGraphicsControlExtension.
  rewrite (readUInt16LE_in buffer 4 b4 b5 H4 H5), H3, H6.
  cbn [bind bitand].
  split; [reflexivity|].
  cbn [disposalMethod userInputFlag transparentColorFlag delayTime
       transparentColorIndex].
  split; [apply (field_of_mask b3 2 3); (lia || reflexivity)|].
  split; [exact (Boolean_bit b3 1 ltac:(lia))|].
  split; [exact (Boolean_bit b3 0 ltac:(lia))|].
  split; reflexivity.
Qed.

Lemma graphicsControlExtension_fields_witness :
  exists gce b3 b4 b5 b6,
    Buffer.index [71; 73; 70; 22; 100; 1; 9] 3 = Some b3 /\
    Buffer.index [71; 73; 70; 22; 100; 1; 9] 4 = Some b4 /\
    Buffer.index [71; 73; 70; 22; 100; 1; 9] 5 = Some b5 /\
    Buffer.index [71; 73; 70; 22; 100; 1; 9] 6 = Some b6 /\
    parseGraphicsControlExtension [71; 73; 70; 22; 100; 1; 9] = Ok gce /\
    disposalMethod gce = (b3 / 2 ^ 2) mod 2 ^ 3 /\
    userInputFlag gce = Z.testbit b3 1 /\
    transparentColorFlag gce = Z.testbit b3 0 /\
    delayTime gce = b4 + 256 * b5 /\
    transparentColorIndex gce = Some b6.
Proof.
  apply (graphicsControlExtension_fields [71; 73; 70; 22; 100; 1; 9]).
  simpl. lia.
Defined.

Example graphicsControlExtension_sample :
  parseGraphicsControlExtension [71; 73; 70; 22; 100; 1; 9] =
    Ok {| disposalMethod := 5; userInputFlag := true;
          transparentColorFlag := false; delayTime := 356;
          transparentColorIndex := Some 9 |}.
Proof. reflexivity. Qed.

(** ** Colour tables *)

Section ColorTable.

Variable exponentiate : float -> float -> float.

Lemma index_app_0 (pre rest : Buffer.t) :
  Buffer.index (pre ++ rest) (length pre) = Buffer.index rest 0.
Proof.
  unfold Buffer.index. rewrite nth_error_app2 by lia.
  now rewrite Nat.sub_diag.
Qed.

Lemma index_app_plus (pre rest : Buffer.t) (k : nat) :
  Buffer.index (pre ++ rest) (length pre + k) = Buffer.index rest k.
Proof.
  unfold Buffer.index. rewrite nth_error_app2 by lia.
  f_equal. lia.
Qed.

Lemma mod3_step (n : nat) : (S (S (S n)) mod 3 = n mod 3)%nat.
Proof.
  replace (S (S (S n))) with (n + 1 * 3)%nat by lia.
  apply Nat.Div0.mod_add.
Qed.

Lemma div3_step (n : nat) : (S (S (S n)) / 3 = S (n / 3))%nat.
Proof.
  replace (S (S (S n))) with (n + 1 * 3)%nat by lia.
  rewrite Nat.div_add by lia. lia.
Qed.

(** The loop at index [length pre] sees [rest]; it consumes it three
    bytes at a time. *)
Lemma parseColorTable_loop_step (fuel : nat) (pre tl : Buffer.t)
  (red green blue : Z) (colors : list Color) :
  parseColorTable_loop exponentiate (S fuel)
    (pre ++ red :: green :: blue :: tl) (length pre) colors =
  parseColorTable_loop exponentiate fuel
    ((pre ++ [red; green; blue]) ++ tl) (length (pre ++ [red; green; blue]))
    (colors ++
      [{| rgbValues := RgbColour.mk red green blue;
          hexValue :=
            {| value := "#" +++ toString16 red +++ toString16 green
                            +++ toString16 blue |};
          labValues := convertRGBToLab exponentiate red green blue |}]).
Proof.
  cbn [parseColorTable_loop].
  destruct (Nat.ltb_spec (length pre) (length (pre ++ red :: green :: blue :: tl)))
    as [_|Hge]; [|rewrite length_app in Hge; simpl in Hge; lia].
  rewrite index_app_0, !index_app_plus. cbn [Buffer.index nth_error].
  rewrite <- app_assoc, length_app. reflexivity.
Qed.

Lemma parseColorTable_loop_end (fuel : nat) (pre : Buffer.t)
  (colors : list Color) :
  parseColorTable_loop exponentiate fuel (pre ++ []) (length pre) colors
    = Ok colors.
Proof.
  destruct fuel; cbn [parseColorTable_loop];
    (destruct (Nat.ltb_spec (length pre) (length (pre ++ [])));
     [rewrite length_app in *; simpl in *; lia | reflexivity]).
Qed.

Lemma parseColorTable_loop_partial (fuel : nat) (pre rest : Buffer.t)
  (colors : list Color) :
  (length rest = 1 \/ length rest = 2)%nat ->
  parseColorTable_loop exponentiate (S fuel) (pre ++ rest) (length pre) colors
    = Throw TypeError.
Proof.
  intros Hrest. cbn [parseColorTable_loop].
  destruct (Nat.ltb_spec (length pre) (length (pre ++ rest)))
    as [_|Hge]; [|rewrite length_app in Hge; lia].
  rewrite index_app_0, !index_app_plus.
  destruct rest as [|red [|green [|blue tl]]]; simpl in Hrest;
    try lia; reflexivity.
Qed.

Lemma parseColorTable_loop_whole (fuel : nat) :
  forall (rest pre : Buffer.t) (colors : list Color),
    (length rest <= fuel)%nat -> (length rest mod 3 = 0)%nat ->
    exists new,
      parseColorTable_loop exponentiate fuel (pre ++ rest) (length pre) colors
        = Ok (colors ++ new) /\
      length new = (length rest / 3)%nat /\
      flat_map channels new = rest /\
      Forall hex_of_channels new.
Proof.
  induction fuel as [|fuel IH]; intros rest pre colors Hfuel Hmod.
  - destruct rest; [|simpl in Hfuel; lia].
    exists []. rewrite parseColorTable_loop_end, app_nil_r. now repeat split.
  - destruct rest as [|red [|green [|blue tl]]]; try (simpl in Hmod; discriminate).
    + exists []. rewrite parseColorTable_loop_end, app_nil_r. now repeat split.
    + rewrite parseColorTable_loop_step.
      destruct (IH tl (pre ++ [red; green; blue])
                  (colors ++
                     [{| rgbValues := RgbColour.mk red green blue;
                         hexValue :=
                           {| value := "#" +++ toString16 red +++ toString16 green
                                           +++ toString16 blue |};
                         labValues := convertRGBToLab exponentiate red green blue |}]))
        as (new & Hloop & Hlen & Hflat & Hhex).
      { simpl in Hfuel. lia. }
      { cbn [length] in Hmod. now rewrite mod3_step in Hmod. }
      eexists (_ :: new). rewrite Hloop, <- app_assoc.
      split; [reflexivity|].
      split; [cbn [length]; rewrite div3_step; lia|].
      split; [cbn [flat_map channels rgbValues RgbColour.r RgbColour.g RgbColour.b app];
              now rewrite Hflat|].
      constructor; [reflexivity | assumption].
Qed.

Lemma parseColorTable_loop_remainder (fuel : nat) :
  forall (rest pre : Buffer.t) (colors : list Color),
    (length rest <= fuel)%nat -> (length rest mod 3 <> 0)%nat ->
    parseColorTable_loop exponentiate fuel (pre ++ rest) (length pre) colors
      = Throw TypeError.
Proof.
  induction fuel as [|fuel IH]; intros rest pre colors Hfuel Hmod.
  - destruct rest; [simpl in Hmod; lia | simpl in Hfuel; lia].
  - destruct rest as [|red [|green [|blue tl]]].
    + simpl in Hmod. lia.
    + apply parseColorTable_loop_partial. simpl. lia.
    + apply parseColorTable_loop_partial. simpl. lia.
    + rewrite parseColorTable_loop_step. apply IH.
      * simpl in Hfuel. lia.
      * cbn [length] in Hmod. now rewrite mod3_step in Hmod.
Qed.

Lemma parseColorTable_whole (buffer : Buffer.t) :
  (length buffer mod 3 = 0)%nat ->
  exists colors,
    parseColorTable exponentiate buffer = Ok colors /\
    length colors = (length buffer / 3)%nat /\
    flat_map channels colors = buffer.
Proof.
  intros Hmod. unfold parseColorTable.
  destruct (parseColorTable_loop_whole (length buffer) buffer [] []
              (le_n _) Hmod) as (new & Hloop & Hlen & Hflat & _).
  exists new. now repeat split.
Qed.

Lemma parseColorTable_partial (buffer : Buffer.t) :
  (length buffer mod 3 <> 0)%nat ->
  parseColorTable exponentiate buffer = Throw TypeError.
Proof.
  intros Hmod.
  exact (parseColorTable_loop_remainder (length buffer) buffer [] []
           (le_n _) Hmod).
Qed.

(** C7 (as the code has it).  On a slice whose length is a multiple of 3
    the decoder returns exactly [length / 3] colours, one per triple in
    order: their channels, laid end to end, are the bytes of the slice.
    On a slice whose length is not a multiple of 3 it returns no table:
    the call on the missing channel of the last, partial triple raises a
    TypeError. *)
Theorem parseColorTable_triples (buffer : Buffer.t) :
  ((length buffer mod 3 = 0)%nat ->
   exists colors,
     parseColorTable exponentiate buffer = Ok colors /\
     length colors = (length buffer / 3)%nat /\
     flat_map channels colors = buffer) /\
  ((length buffer mod 3 <> 0)%nat ->
   parseColorTable exponentiate buffer = Throw TypeError).
Proof.
  split; [apply parseColorTable_whole | apply parseColorTable_partial].
Qed.

(** Every colour of a decoded table carries the unpadded hex string. *)
Lemma parseColorTable_hex (buffer : Buffer.t) (colors : list Color) :
  parseColorTable exponentiate buffer = Ok colors ->
  Forall hex_of_channels colors.
Proof.
  intros Hparse. unfold parseColorTable in Hparse.
  destruct (Nat.eq_dec (length buffer mod 3) 0) as [Hmod|Hmod].
  - destruct (parseColorTable_loop_whole (length buffer) buffer [] []
                (le_n _) Hmod) as (new & Hloop & _ & _ & Hhex).
    cbn [app length] in Hloop. rewrite Hparse in Hloop.
    now injection Hloop as <-.
  - pose proof (parseColorTable_loop_remainder (length buffer) buffer [] []
                  (le_n _) Hmod) as Hthrow.
    cbn [app length] in Hthrow. congruence.
Qed.

End ColorTable.

(** A slice of four bytes holds one triple and one more byte: the decoder
    raises instead of returning the one complete colour. *)
Lemma partial_triple_raises :
  length [1; 2; 3; 4] = 4%nat /\
  parseColorTable Sample.exponentiate [1; 2; 3; 4] = Throw TypeError.
Proof. split; reflexivity. Qed.

(** ** Hex strings *)

Section HexStrings.

Lemma length_append (s1 s2 : string) :
  String.length (s1 +++ s2) = (String.length s1 + String.length s2)%nat.
Proof.
  induction s1 as [|c s1 IH]; [reflexivity|].
  cbn [String.append String.length]. now rewrite IH.
Qed.

(** A byte below 16 prints as one digit, any other byte as two. *)
Lemma toString16_byte (n : Z) :
  0 <= n < 256 ->
  toString16 n =
    if n <? 16
    then String.String (hex_digit n) String.EmptyString
    else String.String (hex_digit (n / 16))
           (String.String (hex_digit (n mod 16)) String.EmptyString).
Proof.
  intros Hn.
  assert (Hall :
    forallb
      (fun k =>
         String.eqb (toString16 (Z.of_nat k))
           (if Z.of_nat k <? 16
            then String.String (hex_digit (Z.of_nat k)) String.EmptyString
            else String.String (hex_digit (Z.of_nat k / 16))
                   (String.String (hex_digit (Z.of_nat k mod 16))
                      String.EmptyString)))
      (seq 0 256) = true) by (vm_compute; reflexivity).
  rewrite forallb_forall in Hall.
  specialize (Hall (Z.to_nat n)).
  rewrite Z2Nat.id in Hall by lia.
  apply String.eqb_eq, Hall, in_seq. lia.
Qed.

Lemma toString16_byte_length (n : Z) :
  0 <= n < 256 ->
  String.length (toString16 n) = if n <? 16 then 1%nat else 2%nat.
Proof.
  intros Hn. rewrite toString16_byte by assumption.
  now destruct (n <? 16).
Qed.

(** The hex string of a decoded colour has 7 characters exactly when no
    channel is below 16; it is shorter otherwise. *)
Lemma hex_length (c : Color) :
  hex_of_channels c -> Forall (fun x => 0 <= x < 256) (channels c) ->
  String.length (value (hexValue c)) = 7%nat <->
  Forall (fun x => 16 <= x) (channels c).
Proof.
  unfold hex_of_channels, channels. intros -> Hbytes.
  inversion_clear Hbytes as [|? ? Hr Hgb].
  inversion_clear Hgb as [|? ? Hg Hb0]. inversion_clear Hb0 as [|? ? Hb _].
  rewrite !length_append, !toString16_byte_length by assumption.
  cbn [String.length].
  destruct (Z.ltb_spec (RgbColour.r (rgbValues c)) 16) as [Hr16|Hr16];
    destruct (Z.ltb_spec (RgbColour.g (rgbValues c)) 16) as [Hg16|Hg16];
    destruct (Z.ltb_spec (RgbColour.b (rgbValues c)) 16) as [Hb16|Hb16];
    (split;
     [ intros Hlen; try (simpl in Hlen; discriminate);
       repeat constructor; assumption
     | intros Hall; try reflexivity; exfalso;
       inversion_clear Hall as [|? ? Hr' Hgb'];
       inversion_clear Hgb' as [|? ? Hg' Hb0'];
       inversion_clear Hb0' as [|? ? Hb' _]; lia ]).
Qed.

End HexStrings.

(** C3 (the code at the input the claim names).  For the triple (1, 2, 255)
    the decoder returns one colour whose hex string is ["#12ff"], of 5
    characters: the channels 1 and 2 print as one digit each, without the
    zero that ["#0102ff"] has in front of them. *)
Theorem hex_not_zero_padded (exponentiate : float -> float -> float) :
  exists c,
    parseColorTable exponentiate [1; 2; 255] = Ok [c] /\
    rgbValues c = RgbColour.mk 1 2 255 /\
    value (hexValue c) = "#12ff"%string /\
    String.length (value (hexValue c)) = 5%nat.
Proof. eexists. repeat split. Qed.

(** ** The global colour table *)

Section GlobalColorTable.

Variable exponentiate : float -> float -> float.

(** X23.  With the flag set and the table inside the buffer, the decoder
    reads [2 ^ (colorResolution + 1)] colours from offset 13: the exponent
    is the [colorResolution] field of the descriptor. *)
Lemma parseGlobalColorTable_length (this : GifParser)
  (lsd : LogicalScreenDescriptor) (buffer : Buffer.t) :
  hasGlobalColorTable this = Some true ->
  logicalScreenDescriptor this = Some lsd ->
  0 <= colorResolution lsd ->
  (13 + Z.to_nat (3 * 2 ^ (colorResolution lsd + 1)) <= length buffer)%nat ->
  exists colors,
    parseGlobalColorTable exponentiate this buffer = Ok colors /\
    Z.of_nat (length colors) = 2 ^ (colorResolution lsd + 1) /\
    flat_map channels colors =
      Buffer.subarray buffer 13
        (13 + Z.to_nat (3 * 2 ^ (colorResolution lsd + 1))).
Proof.
  intros Hflag Hlsd Hres Hlen.
  unfold parseGlobalColorTable. rewrite Hflag, Hlsd.
  set (size := 2 ^ (colorResolution lsd + 1)) in *.
  assert (Hsize : 0 < size) by (apply Z.pow_pos_nonneg; lia).
  set (table := Buffer.subarray buffer 13 (13 + Z.to_nat (3 * size))).
  assert (Htable : length table = (Z.to_nat size * 3)%nat).
  { unfold table. rewrite subarray_length. lia. }
  destruct (parseColorTable_whole exponentiate table)
    as (colors & Hparse & Hcount & Hflat).
  { rewrite Htable. apply Nat.Div0.mod_mul. }
  exists colors. rewrite Hparse. cbn [bind].
  split; [reflexivity|]. split; [|assumption].
  rewrite Hcount, Htable, Nat.div_mul by lia. lia.
Qed.

End GlobalColorTable.

(** C2 (the code at a well-formed input).  In [four_colour_gif] the packed
    byte is [0x81]: flag set, bits 6-4 zero, bits 2-0 equal to 1, and four
    colours follow the descriptor.  The parser built on it holds a global
    colour table of 2 entries, [2 ^ (colorResolution + 1)], and not the 4
    entries, [2 ^ (N + 1)], that the table-size exponent announces. *)
Theorem global_table_sized_by_colorResolution :
  exists this lsd colors,
    new Sample.exponentiate Sample.toString Sample.resolve
      (Sample.readFileSync "four.gif" four_colour_gif)
      (length four_colour_gif) {| filePath := "four.gif" |} = Ok this /\
    getLogicalScreenDescriptor this = Ok lsd /\
    globalColorTableFlag lsd = true /\
    colorResolution lsd = 0 /\
    Buffer.index four_colour_gif 10 = Some 129 /\
    Z.land 129 7 = 1 /\
    getGlobalColorTable this = Ok colors /\
    length colors = 2%nat /\
    map rgbValues colors = [RgbColour.mk 1 2 3; RgbColour.mk 4 5 6].
Proof. do 3 eexists. repeat split. Qed.

(** ** Reassembly of data sub-blocks *)

Section SubBlocks.

Lemma pushBlock_reads (buffer : Buffer.t) (n : nat) :
  forall (offset : nat) (imageData : list (option Z)),
    pushBlock buffer n offset imageData =
      ((offset + n)%nat,
       imageData ++ map (Buffer.index buffer) (seq offset n)).
Proof.
  induction n as [|n IH]; intros offset imageData; cbn [pushBlock seq map].
  - now rewrite Nat.add_0_r, app_nil_r.
  - rewrite IH, <- app_assoc. cbn [app]. f_equal. lia.
Qed.

(** Reading [length block] positions where [block] lies gives the block. *)
Lemma reads_of_block (pre block post : Buffer.t) :
  map (Buffer.index (pre ++ block ++ post)) (seq (length pre) (length block))
    = map Some block.
Proof.
  revert pre. induction block as [|x block IH]; intros pre; [reflexivity|].
  cbn [length seq map]. f_equal.
  - unfold Buffer.index. rewrite nth_error_app2 by lia.
    now rewrite Nat.sub_diag.
  - specialize (IH (pre ++ [x])).
    rewrite <- app_assoc, length_app in IH. cbn [app length] in IH.
    rewrite Nat.add_1_r in IH. exact IH.
Qed.

Lemma from_bytes (l : list Z) :
  Buffer.wf l -> Buffer.from (map Some l) = l.
Proof.
  unfold Buffer.from. intros Hwf. rewrite map_map.
  induction Hwf as [|x l Hx _ IH]; [reflexivity|].
  cbn [map]. now rewrite IH, Z.mod_small.
Qed.

(** The sub-block loop, started on the first length byte of a sub-block
    sequence, appends the blocks in order and stops on the terminator. *)
Lemma parseImageData_loop_blocks (blocks : list (list Z)) :
  forall (fuel : nat) (pre post : Buffer.t) (imageData : list (option Z)),
    Forall (fun block => (0 < length block < 256)%nat) blocks ->
    (length blocks <= fuel)%nat ->
    parseImageData_loop fuel (pre ++ subBlocks blocks ++ post) (length pre)
      imageData
    = Ok (Buffer.from (imageData ++ map Some (concat blocks))).
Proof.
  induction blocks as [|block blocks IH];
    intros fuel pre post imageData Hsizes Hfuel.
  - cbn [subBlocks concat map]. rewrite app_nil_r.
    destruct fuel; cbn [parseImageData_loop];
      now rewrite index_app_0.
  - inversion_clear Hsizes as [|? ? Hblock Hrest].
    destruct fuel as [|fuel]; [simpl in Hfuel; lia|].
    cbn [subBlocks parseImageData_loop].
    rewrite index_app_0. cbn [app Buffer.index nth_error strict_neq].
    destruct (Z.eqb_spec (Z.of_nat (length block)) 0) as [Hzero|_]; [lia|].
    cbn [negb iterations]. rewrite Nat2Z.id, pushBlock_reads.
    replace (pre ++ Z.of_nat (length block) :: (block ++ subBlocks blocks) ++ post)
      with ((pre ++ [Z.of_nat (length block)]) ++ block ++ subBlocks blocks ++ post)
      by (now rewrite <- !app_assoc).
    replace (S (length pre)) with (length (pre ++ [Z.of_nat (length block)]))
      by (rewrite length_app; simpl; lia).
    rewrite reads_of_block.
    replace ((pre ++ [Z.of_nat (length block)]) ++ block ++ subBlocks blocks ++ post)
      with (((pre ++ [Z.of_nat (length block)]) ++ block) ++ subBlocks blocks ++ post)
      by (now rewrite <- !app_assoc).
    rewrite <- length_app.
    rewrite IH by (assumption || (simpl in Hfuel; lia)).
    cbn [concat]. now rewrite map_app, <- app_assoc.
Qed.

(** X10.  What [parseImageData] reassembles: the sub-blocks that start one
    byte after the offset it is given.  The result is the concatenation of
    the block payloads, without length bytes and terminator. *)
Lemma parseImageData_reassembles (fuel offset : nat) (pre post : Buffer.t)
  (blocks : list (list Z)) :
  length pre = S offset ->
  Forall (fun block => (0 < length block < 256)%nat) blocks ->
  Forall Buffer.wf blocks ->
  (length blocks <= fuel)%nat ->
  parseImageData fuel (pre ++ subBlocks blocks ++ post) offset
    = Ok (concat blocks).
Proof.
  intros Hpre Hsizes Hbytes Hfuel. unfold parseImageData.
  rewrite <- Hpre, parseImageData_loop_blocks by assumption.
  cbn [app]. f_equal. apply from_bytes.
  unfold Buffer.wf. apply Forall_concat. exact Hbytes.
Qed.

(** Past the end of the buffer every read is [undefined], which is not
    [0x00]: the sub-block loop never stops there. *)
Lemma parseImageData_loop_past_end (fuel : nat) :
  forall (buffer : Buffer.t) (offset : nat) (imageData : list (option Z)),
    (length buffer <= offset)%nat ->
    parseImageData_loop fuel buffer offset imageData = OutOfFuel.
Proof.
  induction fuel as [|fuel IH]; intros buffer offset imageData Hend;
    cbn [parseImageData_loop]; rewrite (index_None buffer offset Hend);
    cbn [strict_neq iterations pushBlock]; [reflexivity|].
  apply IH. lia.
Qed.

End SubBlocks.

Lemma parseImageData_reassembles_witness :
  parseImageData 2
    ([44; 0; 0; 0; 0; 1; 0; 1; 0; 0; 0; 2; 0]
       ++ subBlocks [[1; 2; 3]; [4; 5]] ++ [59]) 12
  = Ok (concat [[1; 2; 3]; [4; 5]]).
Proof.
  apply (parseImageData_reassembles 2 12
           [44; 0; 0; 0; 0; 1; 0; 1; 0; 0; 0; 2; 0] [59] [[1; 2; 3]; [4; 5]]).
  - reflexivity.
  - repeat constructor.
  - repeat constructor; lia.
  - simpl. lia.
Defined.

(** ** The image scan *)

Section ImageScan.

Variable exponentiate : float -> float -> float.

Lemma skipn_index (buffer : Buffer.t) :
  forall (i : nat) (x : Z),
    Buffer.index buffer i = Some x ->
    skipn i buffer = x :: skipn (S i) buffer.
Proof.
  unfold Buffer.index.
  induction buffer as [|y buffer IH]; intros [|i] x Hx;
    cbn [nth_error] in Hx; try discriminate.
  - now injection Hx as ->.
  - cbn [skipn]. now apply IH.
Qed.

(** Over a stretch without the separator byte the scan only advances, and
    the images found so far are returned at the end of the buffer. *)
Lemma parseImages_loop_scan (fuel : nat) :
  forall (buffer : Buffer.t) (offset : nat) (images : list Image),
    Forall (fun x => x <> 44) (skipn offset buffer) ->
    (length buffer - offset <= fuel)%nat ->
    parseImages_loop exponentiate fuel buffer offset images = Ok images.
Proof.
  induction fuel as [|fuel IH]; intros buffer offset images Hnone Hfuel;
    cbn [parseImages_loop];
    destruct (Nat.ltb_spec offset (length buffer)) as [Hin|Hout];
    try reflexivity; [lia|].
  destruct (index_Some buffer offset Hin) as [x Hx].
  rewrite (skipn_index buffer offset x Hx) in Hnone.
  inversion_clear Hnone as [|? ? Hx44 Hrest].
  rewrite Hx. cbn [strict_neq].
  destruct (Z.eqb_spec x 44) as [->|_]; [contradiction|].
  cbn [negb]. apply IH; [assumption | lia].
Qed.

(** C9.  On a buffer with no [0x2C] byte from offset 7 on, where the scan
    starts, [parseImages] returns the empty list of images; as many loop
    rounds as there are bytes from offset 7 on are enough for it. *)
Theorem parseImages_no_descriptor (fuel : nat) (buffer : Buffer.t) :
  Forall (fun x => x <> 44) (skipn 7 buffer) ->
  (length buffer - 7 <= fuel)%nat ->
  parseImages exponentiate fuel buffer = Ok [].
Proof.
  intros Hnone Hfuel. unfold parseImages.
  now apply parseImages_loop_scan.
Qed.

(** *** Fuel

    A result other than [OutOfFuel] does not depend on the fuel: more fuel
    gives the same result. *)

Lemma parseImageData_loop_mono (fuel : nat) :
  forall (fuel' : nat) (buffer : Buffer.t) (offset : nat)
         (imageData : list (option Z)),
    (fuel <= fuel')%nat ->
    parseImageData_loop fuel buffer offset imageData <> OutOfFuel ->
    parseImageData_loop fuel' buffer offset imageData
      = parseImageData_loop fuel buffer offset imageData.
Proof.
  induction fuel as [|fuel IH]; intros fuel' buffer offset imageData Hle Hres;
    destruct fuel' as [|fuel']; try lia; try reflexivity;
    cbn [parseImageData_loop] in *;
    destruct (strict_neq (Buffer.index buffer offset) 0);
    try reflexivity; try contradiction.
  destruct (pushBlock buffer (iterations (Buffer.index buffer offset))
              (S offset) imageData) as [offset' imageData'].
  apply IH; [lia | assumption].
Qed.

Lemma parseImageData_mono (fuel fuel' : nat) (buffer : Buffer.t) (offset : nat) :
  (fuel <= fuel')%nat ->
  parseImageData fuel buffer offset <> OutOfFuel ->
  parseImageData fuel' buffer offset = parseImageData fuel buffer offset.
Proof. unfold parseImageData. apply parseImageData_loop_mono. Qed.

Lemma parseImages_loop_mono (fuel : nat) :
  forall (fuel' : nat) (buffer : Buffer.t) (offset : nat) (images : list Image),
    (fuel <= fuel')%nat ->
    parseImages_loop exponentiate fuel buffer offset images <> OutOfFuel ->
    parseImages_loop exponentiate fuel' buffer offset images
      = parseImages_loop exponentiate fuel buffer offset images.
Proof.
  induction fuel as [|fuel IH]; intros fuel' buffer offset images Hle Hres;
    destruct fuel' as [|fuel']; try lia; try reflexivity;
    cbn [parseImages_loop] in *;
    destruct (offset <? length buffer)%nat;
    try reflexivity; try contradiction.
  destruct (strict_neq (Buffer.index buffer offset) 44);
    [apply IH; [lia | assumption]|].
  destruct (parseImageDescriptor _) as [descriptor| |];
    cbn [bind] in *; try reflexivity.
  match goal with
  | |- bind ?r _ = _ => destruct r as [[table offset']| |]
  end; cbn [bind] in *; try reflexivity.
  destruct (parseImageData (S fuel) buffer (S offset')) as [data| |] eqn:Hdata;
    cbn [bind] in *; try contradiction.
  - rewrite (parseImageData_mono (S fuel) (S fuel')), Hdata by (lia || congruence).
    cbn [bind]. apply IH; [lia | assumption].
  - rewrite (parseImageData_mono (S fuel) (S fuel')), Hdata by (lia || congruence).
    reflexivity.
Qed.

Lemma parseImages_mono (fuel fuel' : nat) (buffer : Buffer.t) :
  (fuel <= fuel')%nat ->
  parseImages exponentiate fuel buffer <> OutOfFuel ->
  parseImages exponentiate fuel' buffer = parseImages exponentiate fuel buffer.
Proof. unfold parseImages. apply parseImages_loop_mono. Qed.

(** On the image in the layout of the GIF format the reassembly starts two
    bytes late, runs over the end of the buffer and never returns. *)
Lemma parseImageData_gif89a_diverges (fuel : nat) :
  parseImageData fuel two_block_gif89a 25 = OutOfFuel.
Proof.
  unfold parseImageData.
  do 2 (destruct fuel as [|fuel]; [reflexivity|]).
  cbv [two_block_gif89a gif_header subBlocks app length Z.of_nat
       Pos.of_succ_nat Pos.succ].
  cbn [parseImageData_loop Buffer.index nth_error strict_neq Z.eqb negb
       iterations Z.to_nat Pos.to_nat Pos.iter_op Nat.add pushBlock app].
  apply parseImageData_loop_past_end. simpl. lia.
Qed.

(** The scan never returns from an offset whose byte is not the separator
    when it never returns from the next one, nor from a separator whose
    image data is never reassembled. *)
Lemma parseImages_loop_diverges_skip (buffer : Buffer.t) (offset : nat)
  (images : list Image) (x : Z) :
  Buffer.index buffer offset = Some x -> x <> 44 ->
  (forall fuel,
     parseImages_loop exponentiate fuel buffer (S offset) images = OutOfFuel) ->
  forall fuel,
    parseImages_loop exponentiate fuel buffer offset images = OutOfFuel.
Proof.
  intros Hx Hx44 Hnext fuel.
  assert (Hin : (offset < length buffer)%nat)
    by (apply nth_error_Some; unfold Buffer.index in Hx; congruence).
  destruct fuel as [|fuel]; cbn [parseImages_loop];
    destruct (Nat.ltb_spec offset (length buffer)); try lia; [reflexivity|].
  rewrite Hx. cbn [strict_neq].
  destruct (Z.eqb_spec x 44); [contradiction|]. apply Hnext.
Qed.

Lemma parseImages_loop_diverges_data (buffer : Buffer.t) (offset : nat)
  (images : list Image) (descriptor : ImageDescriptor) :
  Buffer.index buffer offset = Some 44 ->
  parseImageDescriptor (Buffer.subarray buffer (offset + 1) (offset + 11))
    = Ok descriptor ->
  localColorTableFlag descriptor = false ->
  (forall fuel, parseImageData fuel buffer (S (offset + 11)) = OutOfFuel) ->
  forall fuel,
    parseImages_loop exponentiate fuel buffer offset images = OutOfFuel.
Proof.
  intros Hsep Hdescriptor Hflag Hdata fuel.
  assert (Hin : (offset < length buffer)%nat)
    by (apply nth_error_Some; unfold Buffer.index in Hsep; congruence).
  destruct fuel as [|fuel]; cbn [parseImages_loop];
    destruct (Nat.ltb_spec offset (length buffer)); try lia; [reflexivity|].
  rewrite Hsep, Hdescriptor. cbn [strict_neq Z.eqb Pos.eqb negb bind].
  rewrite Hflag. cbn [bind]. now rewrite Hdata.
Qed.

Lemma parseImages_gif89a_diverges (fuel : nat) :
  parseImages exponentiate fuel two_block_gif89a = OutOfFuel.
Proof.
  unfold parseImages. revert fuel.
  do 6 (eapply parseImages_loop_diverges_skip;
        [reflexivity | discriminate |]).
  eapply parseImages_loop_diverges_data;
    [reflexivity | reflexivity | reflexivity |].
  exact parseImageData_gif89a_diverges.
Qed.

End ImageScan.

Lemma parseImages_no_descriptor_witness :
  parseImages Sample.exponentiate 9
    (gif_header ++ [1; 0; 1; 0; 0; 0; 0] ++ [33; 249] ++ [59]) = Ok [].
Proof.
  apply (parseImages_no_descriptor Sample.exponentiate 9
           (gif_header ++ [1; 0; 1; 0; 0; 0; 0] ++ [33; 249] ++ [59])).
  - unfold gif_header. cbn [app skipn]. repeat constructor; lia.
  - unfold gif_header. cbn [app length]. lia.
Defined.

(** C1 (the code at the input the claim names).  [two_block_gif] holds one
    image: the separator, the ten descriptor bytes, the LZW minimum code
    size byte, then sub-blocks of sizes 3, 2, 0 with payloads [1,2,3] and
    [4,5].  The scanner returns one image whose data is [2,2,4,5]:
    [parseImages] skips the code size byte and [parseImageData] skips one
    byte more, the length byte 3, so the payload byte 1 is read as a block
    length. *)
Theorem first_length_byte_skipped (exponentiate : float -> float -> float) :
  exists image,
    parseImages exponentiate (length two_block_gif) two_block_gif = Ok [image] /\
    imageData image = [2; 2; 4; 5] /\
    imageData image <> concat [[1; 2; 3]; [4; 5]].
Proof. eexists. split; [reflexivity|]. split; [reflexivity | discriminate]. Qed.

(** C6 (the code at a well-formed input).  [height_44_gif] has no [0x2C]
    byte from offset 13 on, and no image.  Its screen descriptor stores the
    height 44 as [0x2C] at offset 8; the scan, which starts at offset 7,
    takes that byte for an image separator and returns an image read from
    the descriptor bytes that follow. *)
Theorem scan_starts_inside_descriptor (exponentiate : float -> float -> float) :
  forallb (fun x => negb (x =? 44)) (skipn 13 height_44_gif) = true /\
  Buffer.index height_44_gif 8 = Some 44 /\
  (exists lsd, parseLogicalScreenDescriptor height_44_gif = Ok lsd /\ height lsd = 44) /\
  exists image,
    parseImages exponentiate (length height_44_gif) height_44_gif = Ok [image] /\
    imageData image = [].
Proof.
  split; [reflexivity|]. split; [reflexivity|].
  split; eexists; split; reflexivity.
Qed.

(** ** The instance after construction *)

Section Construction.

Variable exponentiate : float -> float -> float.
Variable Buffer_toString : Buffer.t -> string.
Variable path_resolve : string -> string.
Variable readFileSync : string -> result Buffer.t.

Lemma bind_Ok {A B : Type} (r : result A) (k : A -> result B) (b : B) :
  bind r k = Ok b -> exists a, r = Ok a /\ k a = Ok b.
Proof. destruct r; cbn [bind]; intros H; try discriminate. eauto. Qed.

Lemma parseGlobalColorTable_no_table (this : GifParser) (buffer : Buffer.t) :
  hasGlobalColorTable this = Some false ->
  parseGlobalColorTable exponentiate this buffer = Ok [].
Proof. intros Hflag. unfold parseGlobalColorTable. now rewrite Hflag. Qed.

(** C10.  When the constructor returns an instance, every accessor
    returns the value its decoder produced on the loaded buffer, and none
    takes its throwing branch: the global colour table is the one
    [parseGlobalColorTable] decodes, that is the colours of the slice from
    offset 13 when [globalColorTableFlag] is true, and the empty list when
    it is false. *)
Theorem accessors_after_construction (fuel : nat)
  (options : GifTableReaderOptions) (this : GifParser) :
  new exponentiate Buffer_toString path_resolve readFileSync fuel options
    = Ok this ->
  exists buffer lsd colors gce imgs,
    readFileSync (path_resolve (filePath options)) = Ok buffer /\
    getBinValue this = Ok buffer /\
    getHeaderBlock this = Ok (parseHeaderBlock Buffer_toString buffer) /\
    parseLogicalScreenDescriptor buffer = Ok lsd /\
    getLogicalScreenDescriptor this = Ok lsd /\
    getGlobalColorTable this = Ok colors /\
    hasGlobalColorTable this = Some (globalColorTableFlag lsd) /\
    parseGlobalColorTable exponentiate this buffer = Ok colors /\
    (if globalColorTableFlag lsd
     then parseColorTable exponentiate
            (Buffer.subarray buffer 13
               (13 + Z.to_nat (3 * 2 ^ (colorResolution lsd + 1))))
          = Ok colors
     else colors = []) /\
    parseGraphicsControlExtension buffer = Ok gce /\
    getGraphicsControlExtension this = Ok gce /\
    parseImages exponentiate fuel buffer = Ok imgs /\
    getImages this = Ok imgs /\
    (globalColorTableFlag lsd = false -> colors = []).
Proof.
  unfold new, loadGif. intros Hnew.
  apply bind_Ok in Hnew as (buffer & Hload & Hnew).
  apply bind_Ok in Hnew as (lsd & Hlsd & Hnew).
  apply bind_Ok in Hnew as (colors & Hcolors & Hnew).
  apply bind_Ok in Hnew as (gce & Hgce & Hnew).
  apply bind_Ok in Hnew as (imgs & Himgs & Hnew).
  injection Hnew as <-.
  exists buffer, lsd, colors, gce, imgs.
  do 7 (split; [assumption || reflexivity|]).
  split; [exact Hcolors|].
  split.
  { unfold parseGlobalColorTable in Hcolors.
    cbn [hasGlobalColorTable logicalScreenDescriptor set_hasGlobalColorTable
         set_logicalScreenDescriptor set_headerBlock set_binValue] in Hcolors.
    destruct (globalColorTableFlag lsd).
    - apply bind_Ok in Hcolors as (decoded & Hdecoded & Heq).
      now injection Heq as <-.
    - now injection Hcolors as <-. }
  repeat (split; [assumption || reflexivity|]).
  intros Hflag.
  rewrite parseGlobalColorTable_no_table in Hcolors
    by (cbn; now rewrite Hflag).
  now injection Hcolors as <-.
Qed.

(** An instance, once built, is the one any larger fuel builds. *)
Lemma new_mono (fuel fuel' : nat) (options : GifTableReaderOptions)
  (this : GifParser) :
  (fuel <= fuel')%nat ->
  new exponentiate Buffer_toString path_resolve readFileSync fuel options
    = Ok this ->
  new exponentiate Buffer_toString path_resolve readFileSync fuel' options
    = Ok this.
Proof.
  unfold new, loadGif. intros Hle Hnew.
  apply bind_Ok in Hnew as (buffer & Hload & Hnew).
  apply bind_Ok in Hnew as (lsd & Hlsd & Hnew).
  apply bind_Ok in Hnew as (colors & Hcolors & Hnew).
  apply bind_Ok in Hnew as (gce & Hgce & Hnew).
  apply bind_Ok in Hnew as (imgs & Himgs & Hnew).
  rewrite Hload. cbn [bind]. rewrite Hlsd. cbn [bind].
  rewrite Hcolors. cbn [bind]. rewrite Hgce. cbn [bind].
  rewrite (parseImages_mono exponentiate fuel fuel'), Himgs
    by (assumption || congruence).
  exact Hnew.
Qed.

End Construction.

Lemma accessors_after_construction_witness :
  exists this buffer lsd colors gce imgs,
    new Sample.exponentiate Sample.toString Sample.resolve
      (Sample.readFileSync "four.gif" four_colour_gif)
      (length four_colour_gif) {| filePath := "four.gif" |} = Ok this /\
    Sample.readFileSync "four.gif" four_colour_gif (Sample.resolve "four.gif")
      = Ok buffer /\
    getBinValue this = Ok buffer /\
    getHeaderBlock this = Ok (parseHeaderBlock Sample.toString buffer) /\
    parseLogicalScreenDescriptor buffer = Ok lsd /\
    getLogicalScreenDescriptor this = Ok lsd /\
    getGlobalColorTable this = Ok colors /\
    hasGlobalColorTable this = Some (globalColorTableFlag lsd) /\
    parseGlobalColorTable Sample.exponentiate this buffer = Ok colors /\
    (if globalColorTableFlag lsd
     then parseColorTable Sample.exponentiate
            (Buffer.subarray buffer 13
               (13 + Z.to_nat (3 * 2 ^ (colorResolution lsd + 1))))
          = Ok colors
     else colors = []) /\
    parseGraphicsControlExtension buffer = Ok gce /\
    getGraphicsControlExtension this = Ok gce /\
    parseImages Sample.exponentiate (length four_colour_gif) buffer = Ok imgs /\
    getImages this = Ok imgs /\
    (globalColorTableFlag lsd = false -> colors = []).
Proof.
  eexists.
  assert (Hnew :
    new Sample.exponentiate Sample.toString Sample.resolve
      (Sample.readFileSync "four.gif" four_colour_gif)
      (length four_colour_gif) {| filePath := "four.gif" |} = Ok _)
    by (vm_compute; reflexivity).
  destruct (accessors_after_construction Sample.exponentiate Sample.toString
              Sample.resolve (Sample.readFileSync "four.gif" four_colour_gif)
              _ _ _ Hnew)
    as (buffer & lsd & colors & gce & imgs & H).
  exists buffer, lsd, colors, gce, imgs.
  split; [exact Hnew | exact H].
Defined.

(** * Further properties of the decoders *)

(** ** Fixed-offset records *)

Section FixedOffsets.

Lemma wf_index (b : Buffer.t) (i : nat) (x : Z) :
  Buffer.wf b -> Buffer.index b i = Some x -> 0 <= x < 256.
Proof.
  intros Hwf Hx. unfold Buffer.wf in Hwf. rewrite Forall_forall in Hwf.
  apply Hwf. eapply nth_error_In. exact Hx.
Qed.

Lemma land_7 (p : Z) : Z.land p 7 = p mod 2 ^ 3.
Proof. change 7 with (Z.ones 3). apply Z.land_ones. lia. Qed.

End FixedOffsets.

(** X1.  On a buffer of bytes of length at least 13 the logical screen
    descriptor is decoded with [width] and [height] the little-endian
    16-bit values at offsets 6-7 and 8-9 (each below 65536),
    [globalColorTableFlag] bit 7 and [sortFlag] bit 3 of the packed byte at
    offset 10, [backgroundColorIndex] the byte at offset 11 and
    [pixelAspectRatio] the byte at offset 12. *)
Theorem logicalScreenDescriptor_fields (buffer : Buffer.t) :
  Buffer.wf buffer -> (13 <= length buffer)%nat ->
  exists lsd w0 w1 h0 h1 packed bg ratio,
    Buffer.index buffer 6 = Some w0 /\ Buffer.index buffer 7 = Some w1 /\
    Buffer.index buffer 8 = Some h0 /\ Buffer.index buffer 9 = Some h1 /\
    Buffer.index buffer 10 = Some packed /\
    Buffer.index buffer 11 = Some bg /\ Buffer.index buffer 12 = Some ratio /\
    parseLogicalScreenDescriptor buffer = Ok lsd /\
    width lsd = w0 + 256 * w1 /\ 0 <= width lsd < 65536 /\
    height lsd = h0 + 256 * h1 /\ 0 <= height lsd < 65536 /\
    globalColorTableFlag lsd = Z.testbit packed 7 /\
    sortFlag lsd = Z.testbit packed 3 /\
    backgroundColorIndex lsd = Some bg /\
    pixelAspectRatio lsd = Some ratio.
Proof.
  intros Hwf Hlen.
  destruct (parseLogicalScreenDescriptor_returns buffer)
    as (w0 & w1 & h0 & h1 & Hw0 & Hw1 & Hh0 & Hh1 & Hparse); [lia|].
  destruct (index_Some buffer 10) as [packed Hpacked]; [lia|].
  destruct (index_Some buffer 11) as [bg Hbg]; [lia|].
  destruct (index_Some buffer 12) as [ratio Hratio]; [lia|].
  pose proof (wf_index buffer 6 w0 Hwf Hw0).
  pose proof (wf_index buffer 7 w1 Hwf Hw1).
  pose proof (wf_index buffer 8 h0 Hwf Hh0).
  pose proof (wf_index buffer 9 h1 Hwf Hh1).
  rewrite Hpacked, Hbg, Hratio in Hparse. cbn [bitand] in Hparse.
  eexists. exists w0, w1, h0, h1, packed, bg, ratio.
  do 7 (split; [assumption|]). split; [exact Hparse|].
  cbn [width height globalColorTableFlag sortFlag backgroundColorIndex
       pixelAspectRatio].
  split; [reflexivity|]. split; [lia|].
  split; [reflexivity|]. split; [lia|].
  split; [exact (Boolean_bit packed 7 ltac:(lia))|].
  split; [exact (Boolean_bit packed 3 ltac:(lia))|].
  split; reflexivity.
Qed.

Lemma logicalScreenDescriptor_fields_witness :
  exists lsd w0 w1 h0 h1 packed bg ratio,
    Buffer.index (gif_header ++ [64; 1; 200; 0; 247; 5; 49]) 6 = Some w0 /\
    Buffer.index (gif_header ++ [64; 1; 200; 0; 247; 5; 49]) 7 = Some w1 /\
    Buffer.index (gif_header ++ [64; 1; 200; 0; 247; 5; 49]) 8 = Some h0 /\
    Buffer.index (gif_header ++ [64; 1; 200; 0; 247; 5; 49]) 9 = Some h1 /\
    Buffer.index (gif_header ++ [64; 1; 200; 0; 247; 5; 49]) 10 = Some packed /\
    Buffer.index (gif_header ++ [64; 1; 200; 0; 247; 5; 49]) 11 = Some bg /\
    Buffer.index (gif_header ++ [64; 1; 200; 0; 247; 5; 49]) 12 = Some ratio /\
    parseLogicalScreenDescriptor (gif_header ++ [64; 1; 200; 0; 247; 5; 49])
      = Ok lsd /\
    width lsd = w0 + 256 * w1 /\ 0 <= width lsd < 65536 /\
    height lsd = h0 + 256 * h1 /\ 0 <= height lsd < 65536 /\
    globalColorTableFlag lsd = Z.testbit packed 7 /\
    sortFlag lsd = Z.testbit packed 3 /\
    backgroundColorIndex lsd = Some bg /\
    pixelAspectRatio lsd = Some ratio.
Proof.
  apply (logicalScreenDescriptor_fields
           (gif_header ++ [64; 1; 200; 0; 247; 5; 49])).
  - unfold gif_header. cbn [app]. repeat constructor; lia.
  - unfold gif_header. cbn [app length]. lia.
Defined.

(** X2.  The two revisions of [parseLogicalScreenDescriptor] kept in the
    file agree on every field but [colorResolutionValue]: the earlier one
    yields [2 ^ colorResolution] (a value from 1 to 128), half of what the
    current one yields. *)
Theorem colorResolutionValue_of_revisions (buffer : Buffer.t) :
  (13 <= length buffer)%nat ->
  exists lsd1 lsd,
    parseLogicalScreenDescriptor_rev1 buffer = Ok lsd1 /\
    parseLogicalScreenDescriptor buffer = Ok lsd /\
    colorResolutionValue lsd1 = 2 ^ colorResolution lsd1 /\
    1 <= colorResolutionValue lsd1 <= 128 /\
    colorResolutionValue lsd = 2 * colorResolutionValue lsd1 /\
    width lsd1 = width lsd /\ height lsd1 = height lsd /\
    globalColorTableFlag lsd1 = globalColorTableFlag lsd /\
    colorResolution lsd1 = colorResolution lsd /\
    sortFlag lsd1 = sortFlag lsd /\
    backgroundColorIndex lsd1 = backgroundColorIndex lsd /\
    pixelAspectRatio lsd1 = pixelAspectRatio lsd.
Proof.
  intros Hlen.
  destruct (index_Some buffer 6) as [w0 Hw0]; [lia|].
  destruct (index_Some buffer 7) as [w1 Hw1]; [lia|].
  destruct (index_Some buffer 8) as [h0 Hh0]; [lia|].
  destruct (index_Some buffer 9) as [h1 Hh1]; [lia|].
  destruct (index_Some buffer 10) as [packed Hpacked]; [lia|].
  unfold parseLogicalScreenDescriptor_rev1, parseLogicalScreenDescriptor.
  rewrite (readUInt16LE_in _ 0 w0 w1)
    by (rewrite descriptor_view by lia; assumption).
  rewrite (readUInt16LE_in _ 2 h0 h1)
    by (rewrite descriptor_view by lia; assumption).
  cbn [bind]. rewrite !descriptor_view by lia. cbn [Nat.add].
  rewrite Hpacked. cbn [bitand].
  rewrite (field_of_mask packed 4 3) by (lia || reflexivity).
  pose proof (field_range packed 4 3 ltac:(lia)) as Hrange.
  set (c := (packed / 2 ^ 4) mod 2 ^ 3) in *.
  change (2 ^ 3) with 8 in Hrange.
  do 2 eexists. split; [reflexivity|]. split; [reflexivity|].
  cbn [colorResolutionValue colorResolution width height globalColorTableFlag
       sortFlag backgroundColorIndex pixelAspectRatio].
  assert (Hshift : Z.shiftl 1 c = 2 ^ c)
    by (rewrite Z.shiftl_mul_pow2 by lia; lia).
  assert (Hpow : 2 ^ (c + 1) = 2 * 2 ^ c)
    by (rewrite Z.pow_add_r by lia; lia).
  assert (Hbound : 1 <= 2 ^ c <= 128).
  { assert (Hc : c = 0 \/ c = 1 \/ c = 2 \/ c = 3 \/ c = 4 \/ c = 5 \/ c = 6 \/ c = 7)
      by lia.
    clearbody c.
    repeat (destruct Hc as [-> | Hc]; [cbn; lia|]). subst c. cbn. lia. }
  rewrite Hshift, Hpow. repeat split; lia.
Qed.

Lemma colorResolutionValue_of_revisions_witness :
  exists lsd1 lsd,
    parseLogicalScreenDescriptor_rev1 (gif_header ++ [64; 1; 200; 0; 247; 5; 49])
      = Ok lsd1 /\
    parseLogicalScreenDescriptor (gif_header ++ [64; 1; 200; 0; 247; 5; 49])
      = Ok lsd /\
    colorResolutionValue lsd1 = 2 ^ colorResolution lsd1 /\
    1 <= colorResolutionValue lsd1 <= 128 /\
    colorResolutionValue lsd = 2 * colorResolutionValue lsd1 /\
    width lsd1 = width lsd /\ height lsd1 = height lsd /\
    globalColorTableFlag lsd1 = globalColorTableFlag lsd /\
    colorResolution lsd1 = colorResolution lsd /\
    sortFlag lsd1 = sortFlag lsd /\
    backgroundColorIndex lsd1 = backgroundColorIndex lsd /\
    pixelAspectRatio lsd1 = pixelAspectRatio lsd.
Proof.
  apply (colorResolutionValue_of_revisions
           (gif_header ++ [64; 1; 200; 0; 247; 5; 49])).
  unfold gif_header. cbn [app length]. lia.
Defined.

(** X3.  On a view of at least 10 bytes the image descriptor is decoded
    with the four little-endian 16-bit fields at offsets 0-7,
    [localColorTableFlag] bit 7, [interlaceFlag] bit 6 and
    [localColorTableSize] bits 2-0 of the byte at offset 9; the byte at
    offset 8 is not read, so the record is the same whatever it holds. *)
Theorem imageDescriptor_fields (buffer : Buffer.t) :
  (10 <= length buffer)%nat ->
  exists d b0 b1 b2 b3 b4 b5 b6 b7 b8 b9 rest,
    buffer = b0 :: b1 :: b2 :: b3 :: b4 :: b5 :: b6 :: b7 :: b8 :: b9 :: rest /\
    parseImageDescriptor buffer = Ok d /\
    imageLeftPosition d = b0 + 256 * b1 /\
    imageTopPosition d = b2 + 256 * b3 /\
    imageWidth d = b4 + 256 * b5 /\
    imageHeight d = b6 + 256 * b7 /\
    localColorTableFlag d = Z.testbit b9 7 /\
    interlaceFlag d = Z.testbit b9 6 /\
    localColorTableSize d = b9 mod 2 ^ 3 /\
    forall x,
      parseImageDescriptor
        (b0 :: b1 :: b2 :: b3 :: b4 :: b5 :: b6 :: b7 :: x :: b9 :: rest) = Ok d.
Proof.
  intros Hlen.
  destruct buffer
    as [|b0 [|b1 [|b2 [|b3 [|b4 [|b5 [|b6 [|b7 [|b8 [|b9 rest]]]]]]]]]];
    cbn [length] in Hlen; try lia.
  eexists. exists b0, b1, b2, b3, b4, b5, b6, b7, b8, b9, rest.
  split; [reflexivity|]. split; [reflexivity|].
  cbn [imageLeftPosition imageTopPosition imageWidth imageHeight
       localColorTableFlag interlaceFlag localColorTableSize
       Buffer.index nth_error bitand].
  change (2 ^ 8) with 256.
  split; [lia|]. split; [lia|]. split; [lia|]. split; [lia|].
  split; [exact (Boolean_bit b9 7 ltac:(lia))|].
  split; [exact (Boolean_bit b9 6 ltac:(lia))|].
  split; [apply land_7|].
  reflexivity.
Qed.

Lemma imageDescriptor_fields_witness :
  exists d b0 b1 b2 b3 b4 b5 b6 b7 b8 b9 rest,
    [4; 0; 2; 0; 64; 1; 200; 0; 0; 195] =
      b0 :: b1 :: b2 :: b3 :: b4 :: b5 :: b6 :: b7 :: b8 :: b9 :: rest /\
    parseImageDescriptor [4; 0; 2; 0; 64; 1; 200; 0; 0; 195] = Ok d /\
    imageLeftPosition d = b0 + 256 * b1 /\
    imageTopPosition d = b2 + 256 * b3 /\
    imageWidth d = b4 + 256 * b5 /\
    imageHeight d = b6 + 256 * b7 /\
    localColorTableFlag d = Z.testbit b9 7 /\
    interlaceFlag d = Z.testbit b9 6 /\
    localColorTableSize d = b9 mod 2 ^ 3 /\
    forall x,
      parseImageDescriptor
        (b0 :: b1 :: b2 :: b3 :: b4 :: b5 :: b6 :: b7 :: x :: b9 :: rest) = Ok d.
Proof.
  apply (imageDescriptor_fields [4; 0; 2; 0; 64; 1; 200; 0; 0; 195]).
  simpl. lia.
Defined.

(** X4.  The image descriptor decoder raises a RangeError exactly on views
    shorter than 8 bytes (the four 16-bit reads).  On a view of 8 or 9
    bytes it returns a record: the packed byte is [undefined], both flags
    are false and the table size exponent is 0. *)
Theorem imageDescriptor_short (buffer : Buffer.t) :
  ((length buffer < 8)%nat <->
   parseImageDescriptor buffer = Throw RangeError) /\
  ((8 <= length buffer < 10)%nat ->
   exists d,
     parseImageDescriptor buffer = Ok d /\
     localColorTableFlag d = false /\ interlaceFlag d = false /\
     localColorTableSize d = 0).
Proof.
  destruct buffer
    as [|b0 [|b1 [|b2 [|b3 [|b4 [|b5 [|b6 [|b7 [|b8 [|b9 rest]]]]]]]]]];
    cbn [length];
    (split;
     [split;
      [intros H; first [reflexivity | lia]
      | intros H; first [lia | discriminate H]]|]);
    intros Hlen; try lia; eexists; repeat split.
Qed.

(** ** The graphics control extension on short buffers *)

(** X5.  The graphics control extension decoder raises a RangeError exactly
    on buffers shorter than 6 bytes (the 16-bit read at offset 4).  From 6
    bytes on it returns a record whose [transparentColorIndex] is the
    indexed read at offset 6, [undefined] on a buffer of 6 bytes. *)
Theorem graphicsControlExtension_short (buffer : Buffer.t) :
  ((length buffer < 6)%nat <->
   parseGraphicsControlExtension buffer = Throw RangeError) /\
  ((6 <= length buffer)%nat ->
   exists gce,
     parseGraphicsControlExtension buffer = Ok gce /\
     transparentColorIndex gce = Buffer.index buffer 6 /\
     ((length buffer = 6)%nat -> transparentColorIndex gce = None)).
Proof.
  destruct buffer as [|b0 [|b1 [|b2 [|b3 [|b4 [|b5 [|b6 rest]]]]]]];
    cbn [length];
    (split;
     [split;
      [intros H; first [reflexivity | lia]
      | intros H; first [lia | discriminate H]]|]);
    intros Hlen; try lia; eexists; repeat split; intros; lia.
Qed.

(** ** Construction: failures and what the instance holds *)

Section ConstructionFacts.

Variable exponentiate : float -> float -> float.
Variable Buffer_toString : Buffer.t -> string.
Variable path_resolve : string -> string.
Variable readFileSync : string -> result Buffer.t.

Lemma colorResolution_range (buffer : Buffer.t) (lsd : LogicalScreenDescriptor) :
  parseLogicalScreenDescriptor buffer = Ok lsd ->
  0 <= colorResolution lsd <= 7.
Proof.
  intros Hparse.
  destruct (Nat.ltb_spec (length buffer) 10) as [Hshort|Hlen].
  - rewrite parseLogicalScreenDescriptor_raises in Hparse by assumption.
    discriminate.
  - destruct (parseLogicalScreenDescriptor_returns buffer Hlen)
      as (w0 & w1 & h0 & h1 & _ & _ & _ & _ & Hreturns).
    rewrite Hreturns in Hparse.
    destruct (Buffer.index buffer 10) as [packed|];
      injection Hparse as <-; cbn [colorResolution bitand].
    + rewrite (field_of_mask packed 4 3) by (lia || reflexivity).
      pose proof (field_range packed 4 3 ltac:(lia)) as Hrange.
      change (2 ^ 3) with 8 in Hrange. 
      change (2 ^ 3) with 8. lia.
    + cbn. lia.
Qed.

Lemma firstn_length_firstn {A : Type} (n : nat) (l : list A) :
  firstn (length (firstn n l)) l = firstn n l.
Proof.
  rewrite length_firstn.
  destruct (Nat.le_ge_cases n (length l)) as [Hle|Hge].
  - now rewrite Nat.min_l.
  - rewrite Nat.min_r by assumption.
    now rewrite firstn_all, firstn_all2.
Qed.

(** A decoded table has one colour per three bytes of the slice, and its
    channels are the slice. *)
Lemma parseColorTable_Ok (buffer : Buffer.t) (colors : list Color) :
  parseColorTable exponentiate buffer = Ok colors ->
  length buffer = (3 * length colors)%nat /\ flat_map channels colors = buffer.
Proof.
  intros Hparse.
  destruct (Nat.eq_dec (length buffer mod 3) 0) as [Hmod|Hmod].
  - destruct (parseColorTable_whole exponentiate buffer Hmod)
      as (colors' & Hparse' & Hlen & Hflat).
    rewrite Hparse in Hparse'. injection Hparse' as <-.
    split; [|assumption].
    rewrite Hlen.
    pose proof (Nat.div_mod_eq (length buffer) 3) as Hdiv. lia.
  - rewrite parseColorTable_partial in Hparse by assumption. discriminate.
Qed.

(** X6.  A file shorter than 10 bytes is refused by the constructor with
    the RangeError of the screen descriptor decoder, whatever the fuel. *)
Theorem new_short_file (fuel : nat) (options : GifTableReaderOptions)
  (buffer : Buffer.t) :
  readFileSync (path_resolve (filePath options)) = Ok buffer ->
  (length buffer < 10)%nat ->
  new exponentiate Buffer_toString path_resolve readFileSync fuel options
    = Throw RangeError.
Proof.
  intros Hload Hshort. unfold new, loadGif. rewrite Hload. cbn [bind].
  now rewrite parseLogicalScreenDescriptor_raises.
Qed.

(** X7.  When the file sets the global colour table flag but ends inside
    the table announced by [colorResolution], at a position that is not a
    multiple of 3 bytes after offset 13, the constructor fails with the
    TypeError of the colour table decoder. *)
Theorem new_truncated_table (fuel : nat) (options : GifTableReaderOptions)
  (buffer : Buffer.t) (packed : Z) :
  readFileSync (path_resolve (filePath options)) = Ok buffer ->
  Buffer.index buffer 10 = Some packed ->
  Z.testbit packed 7 = true ->
  (length buffer - 13 < Z.to_nat (3 * 2 ^ ((packed / 2 ^ 4) mod 2 ^ 3 + 1)))%nat ->
  ((length buffer - 13) mod 3 <> 0)%nat ->
  new exponentiate Buffer_toString path_resolve readFileSync fuel options
    = Throw TypeError.
Proof.
  intros Hload Hpacked Hflag Hlen Hmod. unfold new, loadGif.
  rewrite Hload. cbn [bind].
  assert (Hten : (10 <= length buffer)%nat).
  { assert (10 < length buffer)%nat; [|lia].
    apply nth_error_Some. unfold Buffer.index in Hpacked. congruence. }
  destruct (parseLogicalScreenDescriptor_returns buffer Hten)
    as (w0 & w1 & h0 & h1 & _ & _ & _ & _ & Hparse).
  rewrite Hparse, Hpacked. cbn [bind bitand].
  unfold parseGlobalColorTable.
  cbn [hasGlobalColorTable logicalScreenDescriptor set_hasGlobalColorTable
       set_logicalScreenDescriptor set_headerBlock set_binValue
       globalColorTableFlag colorResolution].
  rewrite (Boolean_bit packed 7 ltac:(lia) : Boolean (Z.land packed 128) = _), Hflag.
  rewrite (field_of_mask packed 4 3) by (lia || reflexivity).
  rewrite parseColorTable_partial; [reflexivity|].
  rewrite subarray_length.
  replace (13 + Z.to_nat (3 * 2 ^ ((packed / 2 ^ 4) mod 2 ^ 3 + 1)) - 13)%nat
    with (Z.to_nat (3 * 2 ^ ((packed / 2 ^ 4) mod 2 ^ 3 + 1))) by lia.
  now rewrite Nat.min_r by lia.
Qed.

(** X8.  In an instance the constructor returns, the global colour table
    has at most 256 colours, and their channels, laid end to end, are the
    bytes of the file from offset 13 on: the table is always a prefix of
    what follows the screen descriptor. *)
Theorem globalColorTable_prefix (fuel : nat) (options : GifTableReaderOptions)
  (this : GifParser) :
  new exponentiate Buffer_toString path_resolve readFileSync fuel options
    = Ok this ->
  exists buffer colors,
    getBinValue this = Ok buffer /\
    getGlobalColorTable this = Ok colors /\
    (length colors <= 256)%nat /\
    flat_map channels colors = firstn (3 * length colors) (skipn 13 buffer).
Proof.
  unfold new, loadGif. intros Hnew.
  apply bind_Ok in Hnew as (buffer & Hload & Hnew).
  apply bind_Ok in Hnew as (lsd & Hlsd & Hnew).
  apply bind_Ok in Hnew as (colors & Hcolors & Hnew).
  apply bind_Ok in Hnew as (gce & Hgce & Hnew).
  apply bind_Ok in Hnew as (imgs & Himgs & Hnew).
  injection Hnew as <-.
  exists buffer, colors. split; [reflexivity|]. split; [reflexivity|].
  pose proof (colorResolution_range buffer lsd Hlsd) as Hrange.
  unfold parseGlobalColorTable in Hcolors.
  cbn [hasGlobalColorTable logicalScreenDescriptor set_hasGlobalColorTable
       set_logicalScreenDescriptor set_headerBlock set_binValue] in Hcolors.
  destruct (globalColorTableFlag lsd).
  - apply bind_Ok in Hcolors as (colors' & Hparse & Heq).
    injection Heq as <-.
    apply parseColorTable_Ok in Hparse as [Hlen Hflat].
    set (n := Z.to_nat (3 * 2 ^ (colorResolution lsd + 1))) in *.
    assert (Hn : (n <= 768)%nat).
    { unfold n.
      assert (2 ^ (colorResolution lsd + 1) <= 2 ^ 8)
        by (apply Z.pow_le_mono_r; lia).
      change (2 ^ 8) with 256 in *. lia. }
    unfold Buffer.subarray in Hlen, Hflat.
    replace (13 + n - 13)%nat with n in Hlen, Hflat by lia.
    split.
    + rewrite length_firstn in Hlen. lia.
    + rewrite Hflat, <- Hlen. symmetry. apply firstn_length_firstn.
  - injection Hcolors as <-. split; [simpl; lia | reflexivity].
Qed.

(** X9.  The graphics control extension is read at offsets 3-6 of the
    file, where the version and the low byte of the canvas width lie: for
    every file that starts with "GIF89a" the instance reports disposal
    method 6, both flags false and a delay of 24889, with the first byte
    after the header as transparent colour index. *)
Theorem graphicsControlExtension_of_gif89a (fuel : nat)
  (options : GifTableReaderOptions) (this : GifParser) (rest : Buffer.t) :
  new exponentiate Buffer_toString path_resolve readFileSync fuel options
    = Ok this ->
  readFileSync (path_resolve (filePath options)) = Ok (gif_header ++ rest) ->
  getGraphicsControlExtension this =
    Ok {| disposalMethod := 6; userInputFlag := false;
          transparentColorFlag := false; delayTime := 24889;
          transparentColorIndex := Buffer.index rest 0 |}.
Proof.
  unfold new, loadGif. intros Hnew Hload.
  rewrite Hload in Hnew. cbn [bind] in Hnew.
  apply bind_Ok in Hnew as (lsd & Hlsd & Hnew).
  apply bind_Ok in Hnew as (colors & Hcolors & Hnew).
  apply bind_Ok in Hnew as (gce & Hgce & Hnew).
  apply bind_Ok in Hnew as (imgs & Himgs & Hnew).
  injection Hnew as <-.
  unfold getGraphicsControlExtension.
  cbn [graphicsControlExtension set_images set_graphicsControlExtension orThrow].
  rewrite <- Hgce. reflexivity.
Qed.

End ConstructionFacts.

Lemma new_short_file_witness :
  new Sample.exponentiate Sample.toString Sample.resolve
    (Sample.readFileSync "short.gif" [71; 73; 70; 56; 57; 97; 1; 0; 1])
    0 {| filePath := "short.gif" |} = Throw RangeError.
Proof.
  apply (new_short_file Sample.exponentiate Sample.toString Sample.resolve
           (Sample.readFileSync "short.gif" [71; 73; 70; 56; 57; 97; 1; 0; 1])
           0 {| filePath := "short.gif" |} [71; 73; 70; 56; 57; 97; 1; 0; 1]).
  - reflexivity.
  - simpl. lia.
Defined.

Lemma new_truncated_table_witness :
  new Sample.exponentiate Sample.toString Sample.resolve
    (Sample.readFileSync "cut.gif"
       (gif_header ++ [1; 0; 1; 0; 128; 0; 0] ++ [255; 255; 255; 0]))
    0 {| filePath := "cut.gif" |} = Throw TypeError.
Proof.
  apply (new_truncated_table Sample.exponentiate Sample.toString Sample.resolve
           (Sample.readFileSync "cut.gif"
              (gif_header ++ [1; 0; 1; 0; 128; 0; 0] ++ [255; 255; 255; 0]))
           0 {| filePath := "cut.gif" |}
           (gif_header ++ [1; 0; 1; 0; 128; 0; 0] ++ [255; 255; 255; 0]) 128).
  - reflexivity.
  - reflexivity.
  - reflexivity.
  - vm_compute. lia.
  - vm_compute. discriminate.
Defined.

Lemma globalColorTable_prefix_witness :
  exists this buffer colors,
    new Sample.exponentiate Sample.toString Sample.resolve
      (Sample.readFileSync "four.gif" four_colour_gif)
      (length four_colour_gif) {| filePath := "four.gif" |} = Ok this /\
    getBinValue this = Ok buffer /\
    getGlobalColorTable this = Ok colors /\
    (length colors <= 256)%nat /\
    flat_map channels colors = firstn (3 * length colors) (skipn 13 buffer).
Proof.
  eexists.
  assert (Hnew :
    new Sample.exponentiate Sample.toString Sample.resolve
      (Sample.readFileSync "four.gif" four_colour_gif)
      (length four_colour_gif) {| filePath := "four.gif" |} = Ok _)
    by (vm_compute; reflexivity).
  destruct (globalColorTable_prefix Sample.exponentiate Sample.toString
              Sample.resolve (Sample.readFileSync "four.gif" four_colour_gif)
              _ _ _ Hnew)
    as (buffer & colors & H).
  exists buffer, colors. split; [exact Hnew | exact H].
Defined.

Lemma graphicsControlExtension_of_gif89a_witness :
  exists this,
    new Sample.exponentiate Sample.toString Sample.resolve
      (Sample.readFileSync "four.gif" four_colour_gif)
      (length four_colour_gif) {| filePath := "four.gif" |} = Ok this /\
    getGraphicsControlExtension this =
      Ok {| disposalMethod := 6; userInputFlag := false;
            transparentColorFlag := false; delayTime := 24889;
            transparentColorIndex := Some 1 |}.
Proof.
  eexists.
  assert (Hnew :
    new Sample.exponentiate Sample.toString Sample.resolve
      (Sample.readFileSync "four.gif" four_colour_gif)
      (length four_colour_gif) {| filePath := "four.gif" |} = Ok _)
    by (vm_compute; reflexivity).
  split; [exact Hnew|].
  apply (graphicsControlExtension_of_gif89a Sample.exponentiate Sample.toString
           Sample.resolve (Sample.readFileSync "four.gif" four_colour_gif)
           _ _ _ ([1; 0; 1; 0; 129; 0; 0]
                    ++ [1; 2; 3; 4; 5; 6; 7; 8; 9; 10; 11; 12] ++ [59]) Hnew).
  reflexivity.
Defined.

(** ** Sub-blocks: when the reassembly returns *)

Section SubBlockFacts.

Lemma Forall_skipn_more {A : Type} (P : A -> Prop) (l : list A) (a k : nat) :
  Forall P (skipn a l) -> Forall P (skipn (a + k) l).
Proof.
  intros Hall. rewrite Nat.add_comm, <- skipn_skipn.
  rewrite Forall_forall in *. intros x Hx. apply Hall.
  rewrite <- (firstn_skipn k (skipn a l)). apply in_or_app. now right.
Qed.

Lemma In_skipn {A : Type} (x : A) (n : nat) (l : list A) :
  In x (skipn n l) -> In x l.
Proof.
  intros Hx. rewrite <- (firstn_skipn n l). apply in_or_app. now right.
Qed.

Lemma strict_neq_false (v : option Z) (n : Z) :
  strict_neq v n = false -> v = Some n.
Proof.
  destruct v as [x|]; cbn [strict_neq]; [|discriminate].
  destruct (Z.eqb_spec x n); [now subst | discriminate].
Qed.

(** Where no zero byte is left the loop only moves forward. *)
Lemma parseImageData_loop_no_terminator (fuel : nat) :
  forall (buffer : Buffer.t) (offset : nat) (imageData : list (option Z)),
    Forall (fun x => x <> 0) (skipn offset buffer) ->
    parseImageData_loop fuel buffer offset imageData = OutOfFuel.
Proof.
  induction fuel as [|fuel IH]; intros buffer offset imageData Hnone.
  - cbn [parseImageData_loop].
    destruct (strict_neq (Buffer.index buffer offset) 0) eqn:Hneq;
      [reflexivity|].
    apply strict_neq_false in Hneq.
    rewrite (skipn_index buffer offset 0 Hneq) in Hnone.
    inversion_clear Hnone. contradiction.
  - cbn [parseImageData_loop].
    destruct (strict_neq (Buffer.index buffer offset) 0) eqn:Hneq.
    + rewrite pushBlock_reads. apply IH.
      replace (S offset + iterations (Buffer.index buffer offset))%nat
        with (offset + S (iterations (Buffer.index buffer offset)))%nat by lia.
      now apply Forall_skipn_more.
    + apply strict_neq_false in Hneq.
      rewrite (skipn_index buffer offset 0 Hneq) in Hnone.
      inversion_clear Hnone. contradiction.
Qed.

(** Reads of [n] positions inside the buffer are the bytes there. *)
Lemma reads_in_range (buffer : Buffer.t) (a n : nat) :
  (a + n <= length buffer)%nat ->
  map (Buffer.index buffer) (seq a n) = map Some (firstn n (skipn a buffer)).
Proof.
  intros Hin.
  remember (firstn a buffer) as pre eqn:Hpre.
  remember (firstn n (skipn a buffer)) as block eqn:Hblock.
  remember (skipn n (skipn a buffer)) as rest eqn:Hrest.
  assert (Hbuffer : buffer = pre ++ block ++ rest).
  { subst. now rewrite !firstn_skipn. }
  assert (Hlpre : length pre = a)
    by (subst pre; rewrite length_firstn; lia).
  assert (Hlblock : length block = n)
    by (subst block; rewrite length_firstn, length_skipn; lia).
  clear Hpre Hblock Hrest Hin.
  subst buffer a n. apply reads_of_block.
Qed.

Lemma concat_in_subBlocks (blocks : list (list Z)) (x : Z) :
  In x (concat blocks) -> In x (subBlocks blocks).
Proof.
  induction blocks as [|block blocks IH]; cbn [concat subBlocks];
    [contradiction|].
  intros Hx. right. apply in_or_app.
  apply in_app_or in Hx as [Hx|Hx]; [now left | right; now apply IH].
Qed.

Lemma subBlocks_not_nil (blocks : list (list Z)) : subBlocks blocks <> [].
Proof. destruct blocks; discriminate. Qed.

(** A loop that returns has walked over a sub-block sequence. *)
Lemma parseImageData_loop_returns (fuel : nat) :
  forall (buffer : Buffer.t) (offset : nat) (imageData : list (option Z))
         (data : Buffer.t),
    Buffer.wf buffer ->
    parseImageData_loop fuel buffer offset imageData = Ok data ->
    exists blocks post,
      skipn offset buffer = subBlocks blocks ++ post /\
      Forall (fun block => (0 < length block < 256)%nat) blocks /\
      data = Buffer.from (imageData ++ map Some (concat blocks)).
Proof.
  induction fuel as [|fuel IH]; intros buffer offset imageData data Hwf Hloop;
    cbn [parseImageData_loop] in Hloop;
    destruct (strict_neq (Buffer.index buffer offset) 0) eqn:Hneq;
    try discriminate.
  1, 3:
    apply strict_neq_false in Hneq; injection Hloop as <-;
    exists [], (skipn (S offset) buffer);
    rewrite (skipn_index buffer offset 0 Hneq);
    cbn [subBlocks concat map app]; rewrite app_nil_r;
    repeat split; constructor.
  rewrite pushBlock_reads in Hloop.
  destruct (Buffer.index buffer offset) as [x|] eqn:Hx.
  - cbn [iterations] in Hloop.
    apply IH in Hloop as (blocks & post & Hskip & Hsizes & Hdata);
      [|assumption].
    pose proof (wf_index buffer offset x Hwf Hx) as Hbyte.
    assert (Hx0 : x <> 0).
    { cbn [strict_neq] in Hneq. destruct (Z.eqb_spec x 0); [discriminate|assumption]. }
    assert (Hin : (S offset + Z.to_nat x < length buffer)%nat).
    { destruct (Nat.ltb_spec (S offset + Z.to_nat x) (length buffer)) as [|Hout];
        [assumption|].
      rewrite skipn_all2 in Hskip by assumption.
      symmetry in Hskip. apply app_eq_nil in Hskip as [Hnil _].
      now apply subBlocks_not_nil in Hnil. }
    set (block := firstn (Z.to_nat x) (skipn (S offset) buffer)).
    assert (Hblock : length block = Z.to_nat x)
      by (unfold block; rewrite length_firstn, length_skipn; lia).
    exists (block :: blocks), post.
    split; [|split].
    + rewrite (skipn_index buffer offset x Hx).
      cbn [subBlocks]. rewrite Hblock, Z2Nat.id by lia.
      cbn [app]. f_equal. rewrite <- app_assoc, <- Hskip.
      rewrite <- (firstn_skipn (Z.to_nat x) (skipn (S offset) buffer)) at 1.
      unfold block. f_equal. rewrite skipn_skipn. f_equal. lia.
    + constructor; [lia | assumption].
    + rewrite Hdata, reads_in_range by lia.
      cbn [concat]. now rewrite map_app, <- app_assoc.
  - cbn [iterations] in Hloop.
    rewrite parseImageData_loop_past_end in Hloop; [discriminate|].
    apply nth_error_None in Hx. lia.
Qed.

End SubBlockFacts.

(** X11.  [parseImageData] never returns when no zero byte follows the
    offset it is given: it walks past the end of the buffer, where every
    read is [undefined], and loops for ever. *)
Theorem parseImageData_unterminated (fuel : nat) (buffer : Buffer.t)
  (offset : nat) :
  Forall (fun x => x <> 0) (skipn (S offset) buffer) ->
  parseImageData fuel buffer offset = OutOfFuel.
Proof.
  intros Hnone. unfold parseImageData.
  now apply parseImageData_loop_no_terminator.
Qed.

Lemma parseImageData_unterminated_witness :
  parseImageData 1000 [44; 2; 3; 1; 2; 3; 2; 4; 5] 1 = OutOfFuel.
Proof.
  apply (parseImageData_unterminated 1000 [44; 2; 3; 1; 2; 3; 2; 4; 5] 1).
  cbn [skipn]. repeat constructor; lia.
Defined.

(** X12.  When [parseImageData] returns on a buffer of bytes, the bytes
    after the skipped one are a sub-block sequence (non-empty blocks
    behind their length bytes, then a zero byte), and the data returned is
    the concatenation of the block payloads: nothing is returned unless
    the terminator is inside the buffer. *)
Theorem parseImageData_returns_subBlocks (fuel : nat) (buffer : Buffer.t)
  (offset : nat) (data : Buffer.t) :
  Buffer.wf buffer ->
  parseImageData fuel buffer offset = Ok data ->
  exists blocks post,
    skipn (S offset) buffer = subBlocks blocks ++ post /\
    Forall (fun block => (0 < length block < 256)%nat) blocks /\
    data = concat blocks.
Proof.
  intros Hwf Hparse. unfold parseImageData in Hparse.
  apply parseImageData_loop_returns in Hparse
    as (blocks & post & Hskip & Hsizes & Hdata); [|assumption].
  exists blocks, post. split; [assumption|]. split; [assumption|].
  cbn [app] in Hdata. rewrite Hdata. apply from_bytes.
  unfold Buffer.wf in *. rewrite Forall_forall in *. intros x Hx.
  apply Hwf, (In_skipn x (S offset)). rewrite Hskip.
  apply in_or_app. left. now apply concat_in_subBlocks.
Qed.

Lemma parseImageData_returns_subBlocks_witness :
  exists blocks post,
    skipn 2 [2; 7; 3; 1; 2; 3; 2; 4; 5; 0; 59] = subBlocks blocks ++ post /\
    Forall (fun block => (0 < length block < 256)%nat) blocks /\
    [1; 2; 3; 4; 5] = concat blocks.
Proof.
  apply (parseImageData_returns_subBlocks 2 [2; 7; 3; 1; 2; 3; 2; 4; 5; 0; 59] 1
           [1; 2; 3; 4; 5]).
  - repeat constructor; lia.
  - reflexivity.
Defined.

(** ** The image scan: what it reads and what it finds *)

Section ScanFacts.

Variable exponentiate : float -> float -> float.

Lemma subarray_app_shift (pre rest : Buffer.t) (a b : nat) :
  Buffer.subarray (pre ++ rest) (length pre + a) (length pre + b)
    = Buffer.subarray rest a b.
Proof.
  unfold Buffer.subarray.
  rewrite skipn_app, skipn_all2 by lia. cbn [app].
  f_equal; [lia | f_equal; lia].
Qed.

Lemma reads_shift (pre rest : Buffer.t) (n : nat) :
  forall k,
    map (Buffer.index (pre ++ rest)) (seq (length pre + k) n)
      = map (Buffer.index rest) (seq k n).
Proof.
  induction n as [|n IH]; intros k; [reflexivity|].
  cbn [seq map]. rewrite index_app_plus. f_equal.
  rewrite <- Nat.add_succ_r. apply IH.
Qed.

Lemma parseImageData_loop_shift (pre rest : Buffer.t) (fuel : nat) :
  forall (k : nat) (imageData : list (option Z)),
    parseImageData_loop fuel (pre ++ rest) (length pre + k) imageData
      = parseImageData_loop fuel rest k imageData.
Proof.
  induction fuel as [|fuel IH]; intros k imageData;
    cbn [parseImageData_loop]; rewrite index_app_plus;
    destruct (strict_neq (Buffer.index rest k) 0); try reflexivity.
  rewrite !pushBlock_reads.
  rewrite <- Nat.add_succ_r, reads_shift, <- Nat.add_assoc.
  apply IH.
Qed.

Lemma parseImageData_shift (pre rest : Buffer.t) (fuel k : nat) :
  parseImageData fuel (pre ++ rest) (length pre + k)
    = parseImageData fuel rest k.
Proof.
  unfold parseImageData. rewrite <- Nat.add_succ_r.
  apply parseImageData_loop_shift.
Qed.

(** The scan of a buffer from an offset inside [rest] is the scan of
    [rest] alone: nothing before the offset is read. *)
Lemma parseImages_loop_shift (pre rest : Buffer.t) (fuel : nat) :
  forall (k : nat) (images : list Image),
    parseImages_loop exponentiate fuel (pre ++ rest) (length pre + k) images
      = parseImages_loop exponentiate fuel rest k images.
Proof.
  induction fuel as [|fuel IH]; intros k images; cbn [parseImages_loop];
    rewrite length_app;
    (destruct (Nat.ltb_spec (length pre + k) (length pre + length rest));
     destruct (Nat.ltb_spec k (length rest)); try lia; try reflexivity).
  rewrite index_app_plus.
  destruct (strict_neq (Buffer.index rest k) 44).
  - rewrite <- Nat.add_succ_r. apply IH.
  - rewrite <- !Nat.add_assoc, subarray_app_shift.
    destruct (parseImageDescriptor (Buffer.subarray rest (k + 1) (k + 11)))
      as [descriptor| |]; cbn [bind]; try reflexivity.
    destruct (localColorTableFlag descriptor).
    + rewrite <- !Nat.add_assoc, subarray_app_shift.
      destruct (parseColorTable exponentiate _) as [table| |];
        cbn [bind]; try reflexivity.
      rewrite <- Nat.add_succ_r, parseImageData_shift.
      destruct (parseImageData (S fuel) rest _) as [data| |];
        cbn [bind]; try reflexivity.
      rewrite <- Nat.add_assoc. apply IH.
    + cbn [bind].
      rewrite <- Nat.add_succ_r, parseImageData_shift.
      destruct (parseImageData (S fuel) rest _) as [data| |];
        cbn [bind]; try reflexivity.
      rewrite <- Nat.add_assoc. apply IH.
Qed.

Lemma parseImages_after_header (fuel : nat) (head rest : Buffer.t) :
  length head = 7%nat ->
  parseImages exponentiate fuel (head ++ rest)
    = parseImages_loop exponentiate fuel rest 0 [].
Proof.
  intros Hhead. unfold parseImages.
  rewrite <- (parseImages_loop_shift head rest fuel 0 []).
  now rewrite Hhead.
Qed.

(** X13.  The image scan reads nothing before offset 7: two buffers that
    differ in their first seven bytes only give the same result, which is
    the scan of the remaining bytes from their start. *)
Theorem parseImages_ignores_header (fuel : nat) (head head' rest : Buffer.t) :
  length head = 7%nat -> length head' = 7%nat ->
  parseImages exponentiate fuel (head ++ rest)
    = parseImages exponentiate fuel (head' ++ rest) /\
  parseImages exponentiate fuel (head ++ rest)
    = parseImages_loop exponentiate fuel rest 0 [].
Proof.
  intros Hhead Hhead'.
  now rewrite !parseImages_after_header.
Qed.

End ScanFacts.

Lemma parseImages_ignores_header_witness :
  parseImages Sample.exponentiate 30
    ([71; 73; 70; 56; 57; 97; 1] ++ [0; 44; 0; 0; 0; 0; 0; 0; 0; 0; 0; 0; 0; 0; 0; 0])
  = parseImages Sample.exponentiate 30
      ([0; 0; 0; 0; 0; 0; 0] ++ [0; 44; 0; 0; 0; 0; 0; 0; 0; 0; 0; 0; 0; 0; 0; 0]) /\
  parseImages Sample.exponentiate 30
    ([71; 73; 70; 56; 57; 97; 1] ++ [0; 44; 0; 0; 0; 0; 0; 0; 0; 0; 0; 0; 0; 0; 0; 0])
  = parseImages_loop Sample.exponentiate 30
      [0; 44; 0; 0; 0; 0; 0; 0; 0; 0; 0; 0; 0; 0; 0; 0] 0 [].
Proof.
  apply (parseImages_ignores_header Sample.exponentiate 30
           [71; 73; 70; 56; 57; 97; 1] [0; 0; 0; 0; 0; 0; 0]
           [0; 44; 0; 0; 0; 0; 0; 0; 0; 0; 0; 0; 0; 0; 0; 0]);
    reflexivity.
Defined.

Section ScanOutcomes.

Variable exponentiate : float -> float -> float.

Lemma parseImageDescriptor_raises (buffer : Buffer.t) :
  (length buffer < 8)%nat -> parseImageDescriptor buffer = Throw RangeError.
Proof.
  intros Hlen.
  destruct buffer as [|b0 [|b1 [|b2 [|b3 [|b4 [|b5 [|b6 [|b7 rest]]]]]]]];
    cbn [length] in Hlen; try lia; reflexivity.
Qed.

Lemma firstn_exact {A : Type} (l tail : list A) :
  firstn (length l) (l ++ tail) = l.
Proof.
  rewrite firstn_app, Nat.sub_diag, firstn_all. cbn [firstn].
  apply app_nil_r.
Qed.

(** A run of bytes other than the separator costs one round each. *)
Lemma parseImages_loop_run (run : Buffer.t) :
  forall (tail : Buffer.t) (fuel : nat) (images : list Image),
    Forall (fun x => x <> 44) run ->
    parseImages_loop exponentiate (length run + fuel) (run ++ tail) 0 images
      = parseImages_loop exponentiate fuel tail 0 images.
Proof.
  induction run as [|x run IH]; intros tail fuel images Hrun; [reflexivity|].
  inversion_clear Hrun as [|? ? Hx Hrest].
  cbn [length Nat.add app parseImages_loop Nat.ltb Nat.leb
       Buffer.index nth_error strict_neq].
  destruct (Z.eqb_spec x 44); [contradiction|]. cbn [negb].
  change (x :: run ++ tail) with ([x] ++ run ++ tail).
  rewrite (parseImages_loop_shift exponentiate [x] (run ++ tail) _ 0).
  now apply IH.
Qed.

Lemma parseImages_loop_run_diverges (run tail : Buffer.t) (images : list Image) :
  Forall (fun x => x <> 44) run ->
  (forall fuel, parseImages_loop exponentiate fuel tail 0 images = OutOfFuel) ->
  forall fuel,
    parseImages_loop exponentiate fuel (run ++ tail) 0 images = OutOfFuel.
Proof.
  induction run as [|x run IH]; intros Hrun Htail; [exact Htail|].
  inversion_clear Hrun as [|? ? Hx Hrest].
  apply (parseImages_loop_diverges_skip exponentiate _ 0 images x);
    [reflexivity | assumption |].
  intros fuel. change ((x :: run) ++ tail) with ([x] ++ run ++ tail).
  rewrite (parseImages_loop_shift exponentiate [x] (run ++ tail) _ 0).
  now apply IH.
Qed.

(** The images found so far stay in front of the result. *)
Lemma parseImages_loop_prefix (fuel : nat) :
  forall (buffer : Buffer.t) (offset : nat) (images result : list Image),
    parseImages_loop exponentiate fuel buffer offset images = Ok result ->
    exists more, result = images ++ more.
Proof.
  induction fuel as [|fuel IH]; intros buffer offset images result Hloop;
    cbn [parseImages_loop] in Hloop;
    destruct (offset <? length buffer)%nat; try discriminate;
    try (injection Hloop as <-; exists []; now rewrite app_nil_r).
  destruct (strict_neq (Buffer.index buffer offset) 44); [now apply IH in Hloop|].
  apply bind_Ok in Hloop as (descriptor & _ & Hloop).
  apply bind_Ok in Hloop as ([table offset'] & _ & Hloop).
  apply bind_Ok in Hloop as (data & _ & Hloop).
  apply IH in Hloop as [more ->].
  rewrite <- app_assoc. eauto.
Qed.

Lemma count_skipn_le (l : list Z) (x : Z) (a b : nat) :
  (a <= b)%nat ->
  (count_occ Z.eq_dec (skipn b l) x <= count_occ Z.eq_dec (skipn a l) x)%nat.
Proof.
  intros Hle. replace b with ((b - a) + a)%nat by lia.
  rewrite <- skipn_skipn.
  rewrite <- (firstn_skipn (b - a) (skipn a l)) at 2.
  rewrite count_occ_app. lia.
Qed.

Lemma parseImages_loop_count (fuel : nat) :
  forall (buffer : Buffer.t) (offset : nat) (images result : list Image),
    parseImages_loop exponentiate fuel buffer offset images = Ok result ->
    (length result
     <= length images + count_occ Z.eq_dec (skipn offset buffer) 44%Z)%nat.
Proof.
  induction fuel as [|fuel IH]; intros buffer offset images result Hloop;
    cbn [parseImages_loop] in Hloop;
    destruct (Nat.ltb_spec offset (length buffer)) as [Hin|Hout];
    try discriminate;
    try (injection Hloop as <-; lia).
  destruct (index_Some buffer offset Hin) as [x Hx].
  rewrite Hx in Hloop. rewrite (skipn_index buffer offset x Hx).
  cbn [strict_neq] in Hloop.
  destruct (Z.eqb_spec x 44) as [Hx44|Hx44]; cbn [negb] in Hloop.
  - subst x.
    apply bind_Ok in Hloop as (descriptor & _ & Hloop).
    apply bind_Ok in Hloop as ([table offset'] & Htable & Hloop).
    apply bind_Ok in Hloop as (data & _ & Hloop).
    apply IH in Hloop. rewrite length_app in Hloop. cbn [length] in Hloop.
    assert (Hoffset : (offset + 11 <= offset')%nat).
    { destruct (localColorTableFlag descriptor).
      - apply bind_Ok in Htable as (colors & _ & Htable).
        injection Htable as _ <-. lia.
      - injection Htable as _ <-. lia. }
    rewrite count_occ_cons_eq by reflexivity.
    pose proof (count_skipn_le buffer 44 (S offset)
                  (S offset' + (length data + 1)) ltac:(lia)).
    lia.
  - apply IH in Hloop.
    rewrite count_occ_cons_neq by congruence. exact Hloop.
Qed.

(** X14.  The scan reports at most one image per [0x2C] byte found from
    offset 7 on. *)
Theorem parseImages_count (fuel : nat) (buffer : Buffer.t)
  (images : list Image) :
  parseImages exponentiate fuel buffer = Ok images ->
  (length images <= count_occ Z.eq_dec (skipn 7 buffer) 44%Z)%nat.
Proof.
  intros Hparse. unfold parseImages in Hparse.
  apply parseImages_loop_count in Hparse. exact Hparse.
Qed.

(** X15.  When the first [0x2C] byte from offset 7 on has fewer than 8
    bytes after it, the scan fails with the RangeError of the image
    descriptor decoder; no list of images is returned. *)
Theorem parseImages_truncated_descriptor (fuel : nat)
  (head run tail : Buffer.t) :
  length head = 7%nat ->
  Forall (fun x => x <> 44) run ->
  (length tail < 8)%nat ->
  (length run < fuel)%nat ->
  parseImages exponentiate fuel (head ++ run ++ 44 :: tail) = Throw RangeError.
Proof.
  intros Hhead Hrun Htail Hfuel.
  rewrite parseImages_after_header by assumption.
  replace fuel with (length run + S (fuel - length run - 1))%nat by lia.
  rewrite parseImages_loop_run by assumption.
  cbn [parseImages_loop length Nat.ltb Nat.leb Buffer.index nth_error
       strict_neq Z.eqb Pos.eqb negb].
  rewrite parseImageDescriptor_raises; [reflexivity|].
  rewrite subarray_length. cbn [length]. lia.
Qed.

(** X16.  When the first [0x2C] byte from offset 7 on is followed by ten
    descriptor bytes without the local table flag, and no zero byte lies
    two bytes or more after them, the scan never returns: a file cut off
    inside its image data makes the parser loop for ever. *)
Theorem parseImages_unterminated (fuel : nat)
  (head run d tail : Buffer.t) (descriptor : ImageDescriptor) :
  length head = 7%nat ->
  Forall (fun x => x <> 44) run ->
  length d = 10%nat ->
  parseImageDescriptor d = Ok descriptor ->
  localColorTableFlag descriptor = false ->
  Forall (fun x => x <> 0) (skipn 2 tail) ->
  parseImages exponentiate fuel (head ++ run ++ 44 :: d ++ tail) = OutOfFuel.
Proof.
  intros Hhead Hrun Hd Hdescriptor Hflag Htail.
  rewrite parseImages_after_header by assumption.
  revert fuel. apply parseImages_loop_run_diverges; [assumption|].
  apply (parseImages_loop_diverges_data exponentiate _ 0 [] descriptor).
  - reflexivity.
  - unfold Buffer.subarray. cbn [Nat.add Nat.sub skipn].
    rewrite <- Hd, firstn_exact. now rewrite Hdescriptor.
  - assumption.
  - intros fuel. apply parseImageData_loop_no_terminator.
    change (Forall (fun x => x <> 0) (skipn 12 (d ++ tail))).
    rewrite skipn_app, Hd, skipn_all2 by lia. exact Htail.
Qed.

End ScanOutcomes.

Lemma parseImages_count_witness :
  (1 <= count_occ Z.eq_dec (skipn 7 two_block_gif) 44%Z)%nat.
Proof.
  apply (parseImages_count Sample.exponentiate (length two_block_gif)
           two_block_gif
           [{| imageDescriptor :=
                 {| imageLeftPosition := 0; imageTopPosition := 0;
                    imageWidth := 1; imageHeight := 1;
                    localColorTableFlag := false; interlaceFlag := false;
                    localColorTableSize := 0 |};
               localColorTable := None;
               imageData := [2; 2; 4; 5] |}]).
  reflexivity.
Defined.

Lemma parseImages_truncated_descriptor_witness :
  parseImages Sample.exponentiate 4
    ([71; 73; 70; 56; 57; 97; 1] ++ [0; 1; 0] ++ 44 :: [0; 0; 0; 0; 1; 0; 1])
  = Throw RangeError.
Proof.
  apply (parseImages_truncated_descriptor Sample.exponentiate 4
           [71; 73; 70; 56; 57; 97; 1] [0; 1; 0] [0; 0; 0; 0; 1; 0; 1]).
  - reflexivity.
  - repeat constructor; lia.
  - simpl. lia.
  - simpl. lia.
Defined.

Lemma parseImages_unterminated_witness :
  parseImages Sample.exponentiate 1000
    ([71; 73; 70; 56; 57; 97; 1] ++ [0; 1; 0; 0; 0; 0]
       ++ 44 :: [0; 0; 0; 0; 1; 0; 1; 0; 0; 0] ++ [2; 3; 1; 2; 3; 2; 4])
  = OutOfFuel.
Proof.
  apply (parseImages_unterminated Sample.exponentiate 1000
           [71; 73; 70; 56; 57; 97; 1] [0; 1; 0; 0; 0; 0]
           [0; 0; 0; 0; 1; 0; 1; 0; 0; 0] [2; 3; 1; 2; 3; 2; 4]
           {| imageLeftPosition := 0; imageTopPosition := 0;
              imageWidth := 1; imageHeight := 1;
              localColorTableFlag := false; interlaceFlag := false;
              localColorTableSize := 0 |}).
  - reflexivity.
  - repeat constructor; lia.
  - reflexivity.
  - reflexivity.
  - reflexivity.
  - cbn [skipn]. repeat constructor; lia.
Defined.

Section FirstImage.

Variable exponentiate : float -> float -> float.

Lemma skipn_exact {A : Type} (l tail : list A) :
  skipn (length l) (l ++ tail) = tail.
Proof.
  now rewrite skipn_app, skipn_all, Nat.sub_diag.
Qed.

(** The table size exponent of a decoded descriptor is already masked to
    three bits. *)
Lemma localColorTableSize_masked (d : Buffer.t) (descriptor : ImageDescriptor) :
  parseImageDescriptor d = Ok descriptor ->
  Z.land (localColorTableSize descriptor) 7 = localColorTableSize descriptor /\
  0 <= localColorTableSize descriptor <= 7.
Proof.
  unfold parseImageDescriptor. intros Hdescriptor.
  remember (Buffer.index d 9) as packed eqn:Hpacked. clear Hpacked.
  apply bind_Ok in Hdescriptor as (? & _ & Hdescriptor).
  apply bind_Ok in Hdescriptor as (? & _ & Hdescriptor).
  apply bind_Ok in Hdescriptor as (? & _ & Hdescriptor).
  apply bind_Ok in Hdescriptor as (? & _ & Hdescriptor).
  injection Hdescriptor as <-. cbn [localColorTableSize].
  destruct packed as [p|]; cbn [bitand]; [|split; [reflexivity | lia]].
  split; [now rewrite <- Z.land_assoc|].
  rewrite land_7.
  pose proof (Z.mod_pos_bound p (2 ^ 3) ltac:(reflexivity)) as Hmod.
  change (2 ^ 3) with 8 in *. lia.
Qed.

(** One round of the scan on a separator: the descriptor, the local table
    when the flag asks for one, two skipped bytes, the sub-blocks; the scan
    goes on [length data + 13] bytes (and the table) after the separator. *)
Lemma parseImages_loop_image (fuel : nat) (d table post : Buffer.t)
  (s1 s2 : Z) (blocks : list (list Z)) (descriptor : ImageDescriptor)
  (table_colors : option (list Color)) (images : list Image) :
  length d = 10%nat ->
  parseImageDescriptor d = Ok descriptor ->
  (localColorTableFlag descriptor = false /\ table = [] /\ table_colors = None)
  \/ (exists colors,
        localColorTableFlag descriptor = true /\
        Z.to_nat (3 * 2 ^ (Z.land (localColorTableSize descriptor) 7 + 1))
          = length table /\
        parseColorTable exponentiate table = Ok colors /\
        table_colors = Some colors) ->
  Forall (fun block => (0 < length block < 256)%nat) blocks ->
  Forall Buffer.wf blocks ->
  (length blocks <= S fuel)%nat ->
  parseImages_loop exponentiate (S fuel)
    (44 :: d ++ table ++ s1 :: s2 :: subBlocks blocks ++ post) 0 images
  = parseImages_loop exponentiate fuel
      (44 :: d ++ table ++ s1 :: s2 :: subBlocks blocks ++ post)
      (13 + length table + length (concat blocks))
      (images ++ [{| imageDescriptor := descriptor;
                     localColorTable := table_colors;
                     imageData := concat blocks |}]).
Proof.
  intros Hd Hdescriptor Htable Hsizes Hbytes Hfuel.
  remember (44 :: d ++ table ++ s1 :: s2 :: subBlocks blocks ++ post)
    as buffer eqn:Hbuffer.
  assert (Hin : (0 <? length buffer)%nat = true) by (now subst buffer).
  assert (Hsep : Buffer.index buffer 0 = Some 44) by (now subst buffer).
  assert (Hview : Buffer.subarray buffer 1 11 = d).
  { subst buffer. unfold Buffer.subarray.
    change (firstn 10 (d ++ table ++ s1 :: s2 :: subBlocks blocks ++ post) = d).
    rewrite <- Hd. apply firstn_exact. }
  assert (Htail : skipn 11 buffer
                  = table ++ s1 :: s2 :: subBlocks blocks ++ post).
  { subst buffer.
    change (skipn 10 (d ++ table ++ s1 :: s2 :: subBlocks blocks ++ post)
            = table ++ s1 :: s2 :: subBlocks blocks ++ post).
    rewrite <- Hd. apply skipn_exact. }
  assert (Hdata : parseImageData (S fuel) buffer (S (11 + length table))
                  = Ok (concat blocks)).
  { unfold parseImageData.
    replace buffer
      with ((44 :: d ++ table ++ [s1; s2]) ++ subBlocks blocks ++ post)
      by (subst buffer; cbn [app]; now rewrite <- !app_assoc).
    replace (S (S (11 + length table)))
      with (length (44 :: d ++ table ++ [s1; s2]))
      by (cbn [length]; rewrite !length_app, Hd; cbn [length]; lia).
    rewrite parseImageData_loop_blocks by assumption.
    cbn [app]. f_equal. apply from_bytes.
    unfold Buffer.wf. now apply Forall_concat. }
  clear Hbuffer.
  cbn [parseImages_loop]. rewrite Hin, Hsep.
  cbn [strict_neq Z.eqb Pos.eqb negb].
  change (0 + 1)%nat with 1%nat. change (0 + 11)%nat with 11%nat.
  rewrite Hview, Hdescriptor. cbn [bind].
  destruct Htable as [(Hflag & -> & ->) | (colors & Hflag & Hlen & Hcolors & ->)];
    rewrite Hflag.
  - cbn [bind length Nat.add] in *. rewrite Hdata. cbn [bind].
    f_equal. lia.
  - rewrite Hlen. unfold Buffer.subarray.
    replace (11 + length table - 11)%nat with (length table) by lia.
    rewrite Htail, firstn_exact, Hcolors. cbn [bind].
    rewrite Hdata. cbn [bind]. f_equal. lia.
Qed.

(** The scan of [run ++ image ++ ...] that returns has found the image
    first. *)
Lemma parseImages_first (fuel : nat) (head run d table post : Buffer.t)
  (s1 s2 : Z) (blocks : list (list Z)) (descriptor : ImageDescriptor)
  (table_colors : option (list Color)) (images : list Image) :
  length head = 7%nat ->
  Forall (fun x => x <> 44) run ->
  length d = 10%nat ->
  parseImageDescriptor d = Ok descriptor ->
  (localColorTableFlag descriptor = false /\ table = [] /\ table_colors = None)
  \/ (exists colors,
        localColorTableFlag descriptor = true /\
        Z.to_nat (3 * 2 ^ (Z.land (localColorTableSize descriptor) 7 + 1))
          = length table /\
        parseColorTable exponentiate table = Ok colors /\
        table_colors = Some colors) ->
  Forall (fun block => (0 < length block < 256)%nat) blocks ->
  Forall Buffer.wf blocks ->
  parseImages exponentiate fuel
    (head ++ run ++ 44 :: d ++ table ++ s1 :: s2 :: subBlocks blocks ++ post)
    = Ok images ->
  exists more,
    images = {| imageDescriptor := descriptor;
                localColorTable := table_colors;
                imageData := concat blocks |} :: more.
Proof.
  intros Hhead Hrun Hd Hdescriptor Htable Hsizes Hbytes Hparse.
  rewrite parseImages_after_header in Hparse by assumption.
  assert (Hmore :
    parseImages_loop exponentiate (length run + S (fuel + length blocks))
      (run ++ 44 :: d ++ table ++ s1 :: s2 :: subBlocks blocks ++ post) 0 []
    = Ok images).
  { rewrite (parseImages_loop_mono exponentiate fuel);
      [exact Hparse | lia | rewrite Hparse; discriminate]. }
  rewrite parseImages_loop_run in Hmore by assumption.
  rewrite (parseImages_loop_image (fuel + length blocks) d table post s1 s2
             blocks descriptor table_colors [] Hd Hdescriptor Htable Hsizes
             Hbytes ltac:(lia)) in Hmore.
  apply parseImages_loop_prefix in Hmore as [more ->].
  exists more. reflexivity.
Qed.

(** X17.  In a buffer whose first [0x2C] byte from offset 7 on is followed
    by ten descriptor bytes without the local table flag, two further
    bytes, and a sub-block sequence, a scan that returns reports as its
    first image the decoded descriptor, no local table, and the
    concatenation of the block payloads. *)
Theorem parseImages_first_image (fuel : nat) (head run d post : Buffer.t)
  (s1 s2 : Z) (blocks : list (list Z)) (descriptor : ImageDescriptor)
  (images : list Image) :
  length head = 7%nat ->
  Forall (fun x => x <> 44) run ->
  length d = 10%nat ->
  parseImageDescriptor d = Ok descriptor ->
  localColorTableFlag descriptor = false ->
  Forall (fun block => (0 < length block < 256)%nat) blocks ->
  Forall Buffer.wf blocks ->
  parseImages exponentiate fuel
    (head ++ run ++ 44 :: d ++ s1 :: s2 :: subBlocks blocks ++ post)
    = Ok images ->
  exists more,
    images = {| imageDescriptor := descriptor;
                localColorTable := None;
                imageData := concat blocks |} :: more.
Proof.
  intros Hhead Hrun Hd Hdescriptor Hflag Hsizes Hbytes Hparse.
  apply (parseImages_first fuel head run d [] post s1 s2 blocks descriptor
           None images); try assumption.
  left. now repeat split.
Qed.

(** X18.  With the local table flag set and, after the ten descriptor
    bytes, the [3 * 2 ^ (N + 1)] table bytes that bits 2-0 of the packed
    byte announce, the first image of a scan that returns carries a local
    colour table of [2 ^ (N + 1)] colours whose channels are those table
    bytes, and the payloads of the sub-blocks that start two bytes after
    the table. *)
Theorem parseImages_first_image_local_table (fuel : nat)
  (head run d table post : Buffer.t) (s1 s2 : Z) (blocks : list (list Z))
  (descriptor : ImageDescriptor) (images : list Image) :
  length head = 7%nat ->
  Forall (fun x => x <> 44) run ->
  length d = 10%nat ->
  parseImageDescriptor d = Ok descriptor ->
  localColorTableFlag descriptor = true ->
  Z.of_nat (length table) = 3 * 2 ^ (localColorTableSize descriptor + 1) ->
  Forall (fun block => (0 < length block < 256)%nat) blocks ->
  Forall Buffer.wf blocks ->
  parseImages exponentiate fuel
    (head ++ run ++ 44 :: d ++ table ++ s1 :: s2 :: subBlocks blocks ++ post)
    = Ok images ->
  exists colors more,
    images = {| imageDescriptor := descriptor;
                localColorTable := Some colors;
                imageData := concat blocks |} :: more /\
    Z.of_nat (length colors) = 2 ^ (localColorTableSize descriptor + 1) /\
    flat_map channels colors = table.
Proof.
  intros Hhead Hrun Hd Hdescriptor Hflag Hlen Hsizes Hbytes Hparse.
  destruct (localColorTableSize_masked d descriptor Hdescriptor)
    as [Hsize Hrange].
  assert (Hpos : 0 < 2 ^ (localColorTableSize descriptor + 1))
    by (apply Z.pow_pos_nonneg; lia).
  assert (Hmod : (length table mod 3 = 0)%nat).
  { replace (length table)
      with (Z.to_nat (2 ^ (localColorTableSize descriptor + 1)) * 3)%nat by lia.
    apply Nat.Div0.mod_mul. }
  destruct (parseColorTable_whole exponentiate table Hmod)
    as (colors & Hcolors & Hcount & Hflat).
  destruct (parseImages_first fuel head run d table post s1 s2 blocks
              descriptor (Some colors) images) as [more ->]; try assumption.
  { right. exists colors. rewrite Hsize. repeat split; try assumption. lia. }
  exists colors, more. split; [reflexivity|]. split; [|assumption].
  rewrite Hcount.
  replace (length table)
    with (Z.to_nat (2 ^ (localColorTableSize descriptor + 1)) * 3)%nat by lia.
  rewrite Nat.div_mul by lia. lia.
Qed.

End FirstImage.

Lemma parseImages_first_image_witness :
  exists more,
    [{| imageDescriptor :=
          {| imageLeftPosition := 0; imageTopPosition := 0;
             imageWidth := 1; imageHeight := 1;
             localColorTableFlag := false; interlaceFlag := false;
             localColorTableSize := 0 |};
        localColorTable := None;
        imageData := concat [[1; 2; 3]; [4; 5]] |}]
    = {| imageDescriptor :=
           {| imageLeftPosition := 0; imageTopPosition := 0;
              imageWidth := 1; imageHeight := 1;
              localColorTableFlag := false; interlaceFlag := false;
              localColorTableSize := 0 |};
         localColorTable := None;
         imageData := concat [[1; 2; 3]; [4; 5]] |} :: more.
Proof.
  apply (parseImages_first_image Sample.exponentiate 30
           [71; 73; 70; 56; 57; 97; 1] [0; 1; 0; 0; 0; 0]
           [0; 0; 0; 0; 1; 0; 1; 0; 0; 0] [59] 2 9 [[1; 2; 3]; [4; 5]]).
  - reflexivity.
  - repeat constructor; lia.
  - reflexivity.
  - reflexivity.
  - reflexivity.
  - repeat constructor.
  - repeat constructor; lia.
  - vm_compute. reflexivity.
Defined.

Lemma parseImages_first_image_local_table_witness :
  exists images colors more,
    parseImages Sample.exponentiate 30
      ([71; 73; 70; 56; 57; 97; 1] ++ [0; 1; 0; 0; 0; 0]
         ++ 44 :: [0; 0; 0; 0; 1; 0; 1; 0; 0; 128] ++ [255; 0; 0; 0; 255; 0]
         ++ 2 :: 9 :: subBlocks [[7]] ++ [59]) = Ok images /\
    images =
      {| imageDescriptor :=
           {| imageLeftPosition := 0; imageTopPosition := 0;
              imageWidth := 1; imageHeight := 1;
              localColorTableFlag := true; interlaceFlag := false;
              localColorTableSize := 0 |};
         localColorTable := Some colors;
         imageData := concat [[7]] |} :: more /\
    Z.of_nat (length colors) = 2 ^ (0 + 1) /\
    flat_map channels colors = [255; 0; 0; 0; 255; 0].
Proof.
  eexists.
  assert (Hparse :
    parseImages Sample.exponentiate 30
      ([71; 73; 70; 56; 57; 97; 1] ++ [0; 1; 0; 0; 0; 0]
         ++ 44 :: [0; 0; 0; 0; 1; 0; 1; 0; 0; 128] ++ [255; 0; 0; 0; 255; 0]
         ++ 2 :: 9 :: subBlocks [[7]] ++ [59]) = Ok _)
    by (vm_compute; reflexivity).
  destruct (parseImages_first_image_local_table Sample.exponentiate 30
              [71; 73; 70; 56; 57; 97; 1] [0; 1; 0; 0; 0; 0]
              [0; 0; 0; 0; 1; 0; 1; 0; 0; 128] [255; 0; 0; 0; 255; 0] [59]
              2 9 [[7]]
              {| imageLeftPosition := 0; imageTopPosition := 0;
                 imageWidth := 1; imageHeight := 1;
                 localColorTableFlag := true; interlaceFlag := false;
                 localColorTableSize := 0 |}
              _
              eq_refl
              ltac:(repeat constructor; lia)
              eq_refl eq_refl eq_refl eq_refl
              ltac:(repeat constructor)
              ltac:(repeat constructor; lia)
              Hparse)
    as (colors & more & H).
  exists colors, more. split; [exact Hparse | exact H].
Defined.

(** ** Colour tables: composition and derived fields *)

Section ColorTableFacts.

Variable exponentiate : float -> float -> float.

(** The loop at [length pre] decodes [rest] as a table of its own and
    appends the result. *)
Lemma parseColorTable_loop_rest (n : nat) :
  forall (rest pre : Buffer.t) (fuel : nat) (colors : list Color),
    (length rest <= n)%nat -> (length rest <= fuel)%nat ->
    parseColorTable_loop exponentiate fuel (pre ++ rest) (length pre) colors
      = (decoded <- parseColorTable exponentiate rest ;; Ok (colors ++ decoded)).
Proof.
  induction n as [|n IH]; intros rest pre fuel colors Hn Hfuel.
  - destruct rest; [|simpl in Hn; lia].
    rewrite parseColorTable_loop_end. cbn. now rewrite app_nil_r.
  - destruct rest as [|red [|green [|blue tl]]].
    + rewrite parseColorTable_loop_end. cbn. now rewrite app_nil_r.
    + destruct fuel; [simpl in Hfuel; lia|].
      rewrite parseColorTable_loop_partial by (simpl; lia). reflexivity.
    + destruct fuel; [simpl in Hfuel; lia|].
      rewrite parseColorTable_loop_partial by (simpl; lia). reflexivity.
    + destruct fuel; [simpl in Hfuel; lia|].
      cbn [length] in Hn, Hfuel.
      rewrite parseColorTable_loop_step, IH by lia.
      unfold parseColorTable at 2. cbn [length].
      rewrite (parseColorTable_loop_step exponentiate _ [] tl red green blue []).
      rewrite IH by lia.
      destruct (parseColorTable exponentiate tl); cbn [bind app];
        try reflexivity.
      now rewrite <- app_assoc.
Qed.

Lemma parseColorTable_cons (red green blue : Z) (tl : Buffer.t) :
  parseColorTable exponentiate (red :: green :: blue :: tl)
    = (decoded <- parseColorTable exponentiate tl ;;
       Ok (color_of exponentiate red green blue :: decoded)).
Proof.
  unfold parseColorTable at 1. cbn [length].
  rewrite (parseColorTable_loop_step exponentiate _ [] tl red green blue []).
  rewrite (parseColorTable_loop_rest (length tl)) by lia.
  reflexivity.
Qed.

Lemma parseColorTable_app_upto (n : nat) :
  forall a b : Buffer.t,
    (length a <= n)%nat -> (length a mod 3 = 0)%nat ->
    parseColorTable exponentiate (a ++ b)
      = (first <- parseColorTable exponentiate a ;;
         second <- parseColorTable exponentiate b ;;
         Ok (first ++ second)).
Proof.
  induction n as [|n IH]; intros a b Hn Hmod.
  - destruct a; [|simpl in Hn; lia].
    cbn [app]. change (parseColorTable exponentiate []) with (@Ok (list Color) []).
    cbn [bind app]. now destruct (parseColorTable exponentiate b).
  - destruct a as [|red [|green [|blue tl]]]; try (simpl in Hmod; discriminate).
    + cbn [app]. change (parseColorTable exponentiate []) with (@Ok (list Color) []).
      cbn [bind app]. now destruct (parseColorTable exponentiate b).
    + cbn [length] in Hn, Hmod. rewrite mod3_step in Hmod.
      cbn [app]. rewrite !parseColorTable_cons, IH by (assumption || lia).
      destruct (parseColorTable exponentiate tl); cbn [bind]; try reflexivity.
      destruct (parseColorTable exponentiate b); cbn [bind]; reflexivity.
Qed.

(** Every colour of a decoded table is the one built from its own
    channels. *)
Lemma parseColorTable_built (n : nat) :
  forall (buffer : Buffer.t) (colors : list Color),
    (length buffer <= n)%nat ->
    parseColorTable exponentiate buffer = Ok colors ->
    Forall
      (fun c =>
         c = color_of exponentiate (RgbColour.r (rgbValues c))
               (RgbColour.g (rgbValues c)) (RgbColour.b (rgbValues c)))
      colors.
Proof.
  induction n as [|n IH]; intros buffer colors Hn Hparse.
  - destruct buffer; [|simpl in Hn; lia].
    injection Hparse as <-. constructor.
  - destruct buffer as [|red [|green [|blue tl]]]; try discriminate.
    + injection Hparse as <-. constructor.
    + rewrite parseColorTable_cons in Hparse.
      apply bind_Ok in Hparse as (decoded & Htl & Hparse).
      injection Hparse as <-. constructor; [reflexivity|].
      apply (IH tl); [simpl in Hn; lia | assumption].
Qed.

(** X19.  Decoding the concatenation of two slices, the first of a length
    that is a multiple of 3, is decoding each and appending the tables;
    it fails as the first failing part does. *)
Theorem parseColorTable_app (a b : Buffer.t) :
  (length a mod 3 = 0)%nat ->
  parseColorTable exponentiate (a ++ b)
    = (first <- parseColorTable exponentiate a ;;
       second <- parseColorTable exponentiate b ;;
       Ok (first ++ second)).
Proof. apply (parseColorTable_app_upto (length a)). lia. Qed.

(** X20.  In a table decoded from a slice of bytes every colour is
    determined by its three channels: its hex string and its CIELAB value
    are those computed from them.  The hex string has between 4 and 7
    characters, and 7 exactly when no channel is below 16. *)
Theorem parseColorTable_colors (buffer : Buffer.t) (colors : list Color) :
  Buffer.wf buffer ->
  parseColorTable exponentiate buffer = Ok colors ->
  Forall
    (fun c =>
       c = color_of exponentiate (RgbColour.r (rgbValues c))
             (RgbColour.g (rgbValues c)) (RgbColour.b (rgbValues c)) /\
       (4 <= String.length (value (hexValue c)) <= 7)%nat /\
       (String.length (value (hexValue c)) = 7%nat <->
        Forall (fun x => 16 <= x) (channels c)))
    colors.
Proof.
  intros Hwf Hparse.
  pose proof (parseColorTable_built (length buffer) buffer colors (le_n _) Hparse)
    as Hbuilt.
  pose proof (parseColorTable_hex exponentiate buffer colors Hparse) as Hhex.
  apply parseColorTable_Ok in Hparse as [_ Hflat].
  unfold Buffer.wf in Hwf.
  rewrite Forall_forall in *. intros c Hc.
  assert (Hbytes : Forall (fun x => 0 <= x < 256) (channels c)).
  { apply Forall_forall. intros x Hx. apply Hwf. rewrite <- Hflat.
    apply in_flat_map. eauto. }
  split; [now apply Hbuilt|]. split; [|now apply hex_length; auto].
  rewrite (Hhex c Hc). unfold channels in Hbytes.
  inversion_clear Hbytes as [|? ? Hr Hgb].
  inversion_clear Hgb as [|? ? Hg Hb0]. inversion_clear Hb0 as [|? ? Hb _].
  rewrite !length_append, !toString16_byte_length by assumption.
  cbn [String.length].
  destruct (RgbColour.r (rgbValues c) <? 16),
           (RgbColour.g (rgbValues c) <? 16),
           (RgbColour.b (rgbValues c) <? 16); lia.
Qed.

(** X21.  The hex string does not determine the colour: for every blue
    channel, the triples (1, 35, blue) and (18, 3, blue) are decoded into
    colours with different channels and the same hex string. *)
Theorem hex_collision (blue : Z) :
  exists c1 c2,
    parseColorTable exponentiate [1; 35; blue] = Ok [c1] /\
    parseColorTable exponentiate [18; 3; blue] = Ok [c2] /\
    rgbValues c1 <> rgbValues c2 /\
    hexValue c1 = hexValue c2.
Proof.
  do 2 eexists. split; [reflexivity|]. split; [reflexivity|].
  split; [discriminate | reflexivity].
Qed.

End ColorTableFacts.

Lemma parseColorTable_app_witness :
  parseColorTable Sample.exponentiate ([1; 2; 3] ++ [4; 5; 6; 7])
    = (first <- parseColorTable Sample.exponentiate [1; 2; 3] ;;
       second <- parseColorTable Sample.exponentiate [4; 5; 6; 7] ;;
       Ok (first ++ second)).
Proof.
  apply (parseColorTable_app Sample.exponentiate [1; 2; 3] [4; 5; 6; 7]).
  reflexivity.
Defined.

Lemma parseColorTable_colors_witness :
  Forall
    (fun c =>
       c = color_of Sample.exponentiate (RgbColour.r (rgbValues c))
             (RgbColour.g (rgbValues c)) (RgbColour.b (rgbValues c)) /\
       (4 <= String.length (value (hexValue c)) <= 7)%nat /\
       (String.length (value (hexValue c)) = 7%nat <->
        Forall (fun x => 16 <= x) (channels c)))
    [color_of Sample.exponentiate 1 2 255;
     color_of Sample.exponentiate 16 32 64].
Proof.
  apply (parseColorTable_colors Sample.exponentiate [1; 2; 255; 16; 32; 64]).
  - repeat constructor; lia.
  - vm_compute. reflexivity.
Defined.

(** ** Hex strings of two-digit channels *)

Section HexInjective.

Variable exponentiate : float -> float -> float.

Lemma hex_digit_injective (a b : Z) :
  0 <= a < 16 -> 0 <= b < 16 -> hex_digit a = hex_digit b -> a = b.
Proof.
  intros Ha Hb Heq.
  assert (Hall :
    forallb
      (fun i =>
         forallb
           (fun j =>
              implb (Ascii.eqb (hex_digit (Z.of_nat i)) (hex_digit (Z.of_nat j)))
                    (Nat.eqb i j))
           (seq 0 16))
      (seq 0 16) = true) by reflexivity.
  rewrite forallb_forall in Hall.
  specialize (Hall (Z.to_nat a) ltac:(apply in_seq; lia)).
  rewrite forallb_forall in Hall.
  specialize (Hall (Z.to_nat b) ltac:(apply in_seq; lia)).
  rewrite !Z2Nat.id, Heq, Ascii.eqb_refl in Hall by lia.
  cbn [implb] in Hall. apply Nat.eqb_eq in Hall. lia.
Qed.

Lemma two_digits_injective (a b : Z) :
  16 <= a < 256 -> 16 <= b < 256 ->
  hex_digit (a / 16) = hex_digit (b / 16) ->
  hex_digit (a mod 16) = hex_digit (b mod 16) ->
  a = b.
Proof.
  intros Ha Hb Hhigh Hlow.
  apply hex_digit_injective in Hhigh;
    [| split; [apply Z.div_pos; lia | apply Z.div_lt_upper_bound; lia]
     | split; [apply Z.div_pos; lia | apply Z.div_lt_upper_bound; lia]].
  apply hex_digit_injective in Hlow;
    [| apply Z.mod_pos_bound; lia | apply Z.mod_pos_bound; lia].
  rewrite (Z.div_mod a 16), (Z.div_mod b 16) by lia. congruence.
Qed.

Lemma hex_determines_channels (c1 c2 : Color) :
  hex_of_channels c1 -> hex_of_channels c2 ->
  Forall (fun x => 16 <= x < 256) (channels c1) ->
  Forall (fun x => 16 <= x < 256) (channels c2) ->
  hexValue c1 = hexValue c2 ->
  channels c1 = channels c2.
Proof.
  unfold hex_of_channels, channels. intros Hhex1 Hhex2 Hc1 Hc2 Heq.
  apply (f_equal value) in Heq. rewrite Hhex1, Hhex2 in Heq. clear Hhex1 Hhex2.
  inversion_clear Hc1 as [|? ? Hr1 Hgb1].
  inversion_clear Hgb1 as [|? ? Hg1 Hb01]. inversion_clear Hb01 as [|? ? Hb1 _].
  inversion_clear Hc2 as [|? ? Hr2 Hgb2].
  inversion_clear Hgb2 as [|? ? Hg2 Hb02]. inversion_clear Hb02 as [|? ? Hb2 _].
  rewrite !toString16_byte in Heq by lia.
  repeat match type of Heq with
         | context [?n <? 16] =>
             destruct (Z.ltb_spec n 16); [lia|]
         end.
  cbn [String.append] in Heq.
  injection Heq as Hr Hr' Hg Hg' Hb Hb'.
  f_equal; [|f_equal; [|f_equal]]; now apply two_digits_injective.
Qed.

Lemma hex_determines_flat (colors1 : list Color) :
  forall colors2 : list Color,
    Forall hex_of_channels colors1 -> Forall hex_of_channels colors2 ->
    Forall (fun x => 16 <= x < 256) (flat_map channels colors1) ->
    Forall (fun x => 16 <= x < 256) (flat_map channels colors2) ->
    map hexValue colors1 = map hexValue colors2 ->
    flat_map channels colors1 = flat_map channels colors2.
Proof.
  induction colors1 as [|c1 colors1 IH]; intros [|c2 colors2] Hhex1 Hhex2 Hb1 Hb2 Heq;
    try discriminate; [reflexivity|].
  cbn [map] in Heq. injection Heq as Hc Hrest.
  inversion_clear Hhex1. inversion_clear Hhex2.
  cbn [flat_map] in *. apply Forall_app in Hb1 as [Hc1 Hb1].
  apply Forall_app in Hb2 as [Hc2 Hb2].
  f_equal; [now apply hex_determines_channels | now apply IH].
Qed.

(** X22.  Among slices whose bytes are all at least 16, the hex strings of
    the decoded table determine the slice: two such slices with the same
    sequence of hex strings are equal. *)
Theorem hex_determines_table (buffer1 buffer2 : Buffer.t)
  (colors1 colors2 : list Color) :
  Forall (fun x => 16 <= x < 256) buffer1 ->
  Forall (fun x => 16 <= x < 256) buffer2 ->
  parseColorTable exponentiate buffer1 = Ok colors1 ->
  parseColorTable exponentiate buffer2 = Ok colors2 ->
  map hexValue colors1 = map hexValue colors2 ->
  buffer1 = buffer2.
Proof.
  intros Hb1 Hb2 Hparse1 Hparse2 Heq.
  pose proof (parseColorTable_hex exponentiate _ _ Hparse1) as Hhex1.
  pose proof (parseColorTable_hex exponentiate _ _ Hparse2) as Hhex2.
  apply parseColorTable_Ok in Hparse1 as [_ Hflat1].
  apply parseColorTable_Ok in Hparse2 as [_ Hflat2].
  rewrite <- Hflat1, <- Hflat2 in *.
  now apply hex_determines_flat.
Qed.

End HexInjective.

Lemma hex_determines_table_witness : [16; 32; 255] = [16; 32; 255].
Proof.
  apply (hex_determines_table Sample.exponentiate [16; 32; 255] [16; 32; 255]
           [color_of Sample.exponentiate 16 32 255]
           [color_of Sample.exponentiate 16 32 255]).
  - repeat constructor; lia.
  - repeat constructor; lia.
  - vm_compute. reflexivity.
  - vm_compute. reflexivity.
  - reflexivity.
Defined.

(** ** Windows of the buffer *)

Section Windows.

Variable Buffer_toString : Buffer.t -> string.

(** X24.  The header block depends on the first six bytes only: the
    signature is the text of the first three and the version the text of
    the next three, whatever follows. *)
Theorem parseHeaderBlock_first_six (h rest : Buffer.t) :
  length h = 6%nat ->
  parseHeaderBlock Buffer_toString (h ++ rest) =
    {| signature := Buffer_toString (firstn 3 h);
       version := Buffer_toString (skipn 3 h) |}.
Proof.
  intros Hh.
  destruct h as [|b0 [|b1 [|b2 [|b3 [|b4 [|b5 [|b6 h]]]]]]];
    try discriminate.
  reflexivity.
Qed.

End Windows.

Lemma parseHeaderBlock_first_six_witness :
  parseHeaderBlock Sample.toString (gif_header ++ [1; 0; 1; 0; 0; 0; 0]) =
    {| signature := Sample.toString (firstn 3 gif_header);
       version := Sample.toString (skipn 3 gif_header) |}.
Proof.
  apply (parseHeaderBlock_first_six Sample.toString gif_header
           [1; 0; 1; 0; 0; 0; 0]).
  reflexivity.
Defined.

(** X25.  The logical screen descriptor depends on the seven bytes at
    offsets 6 to 12 only: neither the header before them nor anything
    after them changes the record. *)
Theorem logicalScreenDescriptor_window (h h' m rest rest' : Buffer.t) :
  length h = 6%nat -> length h' = 6%nat -> length m = 7%nat ->
  parseLogicalScreenDescriptor (h ++ m ++ rest)
    = parseLogicalScreenDescriptor (h' ++ m ++ rest').
Proof.
  intros Hh Hh' Hm.
  assert (Hview : forall a r : Buffer.t,
            length a = 6%nat -> Buffer.subarray (a ++ m ++ r) 6 13 = m).
  { intros a r Ha.
    destruct a as [|a0 [|a1 [|a2 [|a3 [|a4 [|a5 [|a6 a]]]]]]];
      try discriminate.
    change (firstn 7 (m ++ r) = m). rewrite <- Hm. apply firstn_exact. }
  unfold parseLogicalScreenDescriptor. now rewrite !Hview.
Qed.

Lemma logicalScreenDescriptor_window_witness :
  parseLogicalScreenDescriptor (gif_header ++ [64; 1; 200; 0; 247; 5; 49] ++ [59])
    = parseLogicalScreenDescriptor
        ([0; 0; 0; 0; 0; 0] ++ [64; 1; 200; 0; 247; 5; 49] ++ []).
Proof.
  apply (logicalScreenDescriptor_window gif_header [0; 0; 0; 0; 0; 0]
           [64; 1; 200; 0; 247; 5; 49] [59] []); reflexivity.
Defined.

(** X26.  The graphics control extension and the logical screen descriptor
    are read from overlapping bytes: on a buffer of at least 13 bytes the
    transparent colour index is the low byte of the canvas width. *)
Theorem graphicsControlExtension_overlaps_width (buffer : Buffer.t) :
  Buffer.wf buffer -> (13 <= length buffer)%nat ->
  exists gce lsd,
    parseGraphicsControlExtension buffer = Ok gce /\
    parseLogicalScreenDescriptor buffer = Ok lsd /\
    transparentColorIndex gce = Some (width lsd mod 256).
Proof.
  intros Hwf Hlen.
  destruct (parseLogicalScreenDescriptor_returns buffer)
    as (w0 & w1 & h0 & h1 & Hw0 & Hw1 & _ & _ & Hparse); [lia|].
  destruct (index_Some buffer 4) as [b4 H4]; [lia|].
  destruct (index_Some buffer 5) as [b5 H5]; [lia|].
  pose proof (wf_index buffer 6 w0 Hwf Hw0) as Hbyte.
  unfold parseGraphicsControlExtension.
  rewrite (readUInt16LE_in buffer 4 b4 b5 H4 H5), Hw0. cbn [bind].
  do 2 eexists. split; [reflexivity|]. split; [exact Hparse|].
  cbn [transparentColorIndex width]. f_equal.
  rewrite (Z.mul_comm 256 w1), Z.mod_add by lia.
  symmetry. now apply Z.mod_small.
Qed.

Lemma graphicsControlExtension_overlaps_width_witness :
  exists gce lsd,
    parseGraphicsControlExtension (gif_header ++ [64; 1; 200; 0; 247; 5; 49])
      = Ok gce /\
    parseLogicalScreenDescriptor (gif_header ++ [64; 1; 200; 0; 247; 5; 49])
      = Ok lsd /\
    transparentColorIndex gce = Some (width lsd mod 256).
Proof.
  apply (graphicsControlExtension_overlaps_width
           (gif_header ++ [64; 1; 200; 0; 247; 5; 49])).
  - unfold gif_header. cbn [app]. repeat constructor; lia.
  - unfold gif_header. cbn [app length]. lia.
Defined.

Lemma parseGlobalColorTable_length_witness :
  exists colors,
    parseGlobalColorTable Sample.exponentiate
      (set_hasGlobalColorTable
         (set_logicalScreenDescriptor init
            {| width := 1; height := 1; globalColorTableFlag := true;
               colorResolution := 0; colorResolutionValue := 2;
               sortFlag := false; backgroundColorIndex := Some 0;
               pixelAspectRatio := Some 0 |})
         true)
      four_colour_gif = Ok colors /\
    Z.of_nat (length colors) = 2 ^ (0 + 1) /\
    flat_map channels colors =
      Buffer.subarray four_colour_gif 13 (13 + Z.to_nat (3 * 2 ^ (0 + 1))).
Proof.
  apply (parseGlobalColorTable_length Sample.exponentiate
           (set_hasGlobalColorTable
              (set_logicalScreenDescriptor init
                 {| width := 1; height := 1; globalColorTableFlag := true;
                    colorResolution := 0; colorResolutionValue := 2;
                    sortFlag := false; backgroundColorIndex := Some 0;
                    pixelAspectRatio := Some 0 |})
              true)
           {| width := 1; height := 1; globalColorTableFlag := true;
              colorResolution := 0; colorResolutionValue := 2;
              sortFlag := false; backgroundColorIndex := Some 0;
              pixelAspectRatio := Some 0 |}
           four_colour_gif).
  - reflexivity.
  - reflexivity.
  - simpl. lia.
  - vm_compute. lia.
Defined.
